(** * example_argparse_usage.py: a line counter with argparse and logging

    A shallow embedding of [src/example_argparse_usage.py] and of the parts
    of the Python standard library it drives ([argparse], [logging],
    [os.path.exists], [open]/[readlines], [print]), followed by the
    properties of the program.

    Conventions.
    - A Python [str] that travels through the program (an argument, a path,
      a message) is a [string] that holds its UTF-8 bytes; the text of a
      decoded file is a list of Unicode code points ([list N]); the bytes of
      a file are [list byte].  Every character the parser and the program
      compare with is ASCII, so a text is handled byte by byte, except for
      the digits of [_negative_number_matcher], which are the decimal digits
      of Unicode 14, the version of CPython 3.11.  [str.upper] is modelled
      on the ASCII letters, which is all a level name is made of.
    - The file system is a finite map from files to their bytes, each file
      under one name, its real path; [realpath] gives the file a path name
      leads to, so that two spellings may lead to one file.  Directories,
      permissions and device errors are outside the model.
    - [argparse] follows the algorithm of CPython 3.11 ([_parse_optional],
      [_get_option_tuples], [consume_optional], [consume_positionals],
      [_get_values]), restricted to what this parser uses: actions taking no
      argument or exactly one, prefix character [-], abbreviations allowed.
    - The console takes every text: [print] and the console handler of
      [logging] do not fail.
    - The text of the usage and help messages, of a traceback, and the
      [asctime] field of a formatted log line are kept abstract. *)

From Stdlib Require Import ZArith NArith Strings.Ascii Strings.String Strings.Byte.
From stdpp Require Import base option list strings gmap pretty.

(** ** Text files *)

Module Text.

Definition LF : N := 10.
Definition CR : N := 13.

Definition continuation (n : N) : bool := ((0x80 <=? n) && (n <=? 0xBF))%N.

(** The strict [utf-8] codec: shortest forms only, no surrogates, nothing
    above U+10FFFF.  [None] stands for [UnicodeDecodeError]. *)
Fixpoint utf_8_decode (bs : list byte) : option (list N) :=
  match bs with
  | [] => Some []
  | b0 :: r0 =>
      let n0 := Byte.to_N b0 in
      if (n0 <? 0x80)%N then cons n0 <$> utf_8_decode r0
      else if (n0 <? 0xC2)%N then None
      else if (n0 <? 0xE0)%N then
        match r0 with
        | b1 :: r1 =>
            let n1 := Byte.to_N b1 in
            if continuation n1
            then cons ((n0 - 0xC0) * 0x40 + (n1 - 0x80))%N <$> utf_8_decode r1
            else None
        | _ => None
        end
      else if (n0 <? 0xF0)%N then
        match r0 with
        | b1 :: b2 :: r2 =>
            let n1 := Byte.to_N b1 in
            let n2 := Byte.to_N b2 in
            let lo := if (n0 =? 0xE0)%N then 0xA0%N else 0x80%N in
            let hi := if (n0 =? 0xED)%N then 0x9F%N else 0xBF%N in
            if ((lo <=? n1) && (n1 <=? hi))%N && continuation n2
            then cons ((n0 - 0xE0) * 0x1000 + (n1 - 0x80) * 0x40 + (n2 - 0x80))%N
                   <$> utf_8_decode r2
            else None
        | _ => None
        end
      else if (n0 <? 0xF5)%N then
        match r0 with
        | b1 :: b2 :: b3 :: r3 =>
            let n1 := Byte.to_N b1 in
            let n2 := Byte.to_N b2 in
            let n3 := Byte.to_N b3 in
            let lo := if (n0 =? 0xF0)%N then 0x90%N else 0x80%N in
            let hi := if (n0 =? 0xF4)%N then 0x8F%N else 0xBF%N in
            if ((lo <=? n1) && (n1 <=? hi))%N && continuation n2 && continuation n3
            then cons ((n0 - 0xF0) * 0x40000 + (n1 - 0x80) * 0x1000
                       + (n2 - 0x80) * 0x40 + (n3 - 0x80))%N
                   <$> utf_8_decode r3
            else None
        | _ => None
        end
      else None
  end.

(** Universal newlines ([newline=None] on input): CR LF and a lone CR are
    read as LF. *)
Fixpoint universal_newlines (text : list N) : list N :=
  match text with
  | [] => []
  | c :: rest =>
      if (c =? CR)%N then
        LF :: match rest with
              | c' :: rest' =>
                  if (c' =? LF)%N then universal_newlines rest'
                  else universal_newlines rest
              | [] => []
              end
      else c :: universal_newlines rest
  end.

(** The lines of a text, each with its LF; a last line without LF counts
    when it is not empty.  [line] is the current line, reversed. *)
Fixpoint split_lines (line : list N) (text : list N) : list (list N) :=
  match text with
  | [] =>
      match line with
      | [] => []
      | _ :: _ => [rev line]
      end
  | c :: rest =>
      if (c =? LF)%N then rev (c :: line) :: split_lines [] rest
      else split_lines (c :: line) rest
  end.

(** [f.readlines()] on a file opened with ['r', encoding='utf-8']. *)
Definition readlines (content : list byte) : option (list (list N)) :=
  split_lines [] ∘ universal_newlines <$> utf_8_decode content.

End Text.

(** ** Strings *)

Module Str.

Definition hyphen : ascii := "-"%char.
Definition equals : ascii := "="%char.
Definition space : ascii := " "%char.
Definition LF : ascii := ascii_of_nat 10.

(** [c in s] *)
Fixpoint contains (c : ascii) (s : string) : bool :=
  match s with
  | EmptyString => false
  | String d s' => Ascii.eqb c d || contains c s'
  end.

(** [s.split(c, 1)] when [c in s]: the text before the first [c] and the
    text after it. *)
Fixpoint split1 (c : ascii) (s : string) : option (string * string) :=
  match s with
  | EmptyString => None
  | String d s' =>
      if Ascii.eqb c d then Some (EmptyString, s')
      else match split1 c s' with
           | Some (l, r) => Some (String d l, r)
           | None => None
           end
  end.

(** [s.startswith(p)] *)
Fixpoint startswith (s p : string) {struct p} : bool :=
  match p with
  | EmptyString => true
  | String c p' =>
      match s with
      | String d s' => Ascii.eqb c d && startswith s' p'
      | EmptyString => false
      end
  end.

(** The characters of a text.  [None] when the bytes are not UTF-8: the
    text then holds a character that stands for a stray byte. *)
Definition code_points (s : string) : option (list N) :=
  Text.utf_8_decode (list_byte_of_string s).

(** The decimal digits of Unicode 14 (general category Nd), which are what
    [\d] matches in a [str] pattern: the first code point and the length of
    every run of them. *)
Definition decimal_digits : list (N * N) :=
  [(0x30, 10); (0x660, 10); (0x6f0, 10); (0x7c0, 10); (0x966, 10);
   (0x9e6, 10); (0xa66, 10); (0xae6, 10); (0xb66, 10); (0xbe6, 10);
   (0xc66, 10); (0xce6, 10); (0xd66, 10); (0xde6, 10); (0xe50, 10);
   (0xed0, 10); (0xf20, 10); (0x1040, 10); (0x1090, 10); (0x17e0, 10);
   (0x1810, 10); (0x1946, 10); (0x19d0, 10); (0x1a80, 10); (0x1a90, 10);
   (0x1b50, 10); (0x1bb0, 10); (0x1c40, 10); (0x1c50, 10); (0xa620, 10);
   (0xa8d0, 10); (0xa900, 10); (0xa9d0, 10); (0xa9f0, 10); (0xaa50, 10);
   (0xabf0, 10); (0xff10, 10); (0x104a0, 10); (0x10d30, 10); (0x11066, 10);
   (0x110f0, 10); (0x11136, 10); (0x111d0, 10); (0x112f0, 10); (0x11450, 10);
   (0x114d0, 10); (0x11650, 10); (0x116c0, 10); (0x11730, 10); (0x118e0, 10);
   (0x11950, 10); (0x11c50, 10); (0x11d50, 10); (0x11da0, 10); (0x16a60, 10);
   (0x16ac0, 10); (0x16b50, 10); (0x1d7ce, 50); (0x1e140, 10); (0x1e2f0, 10);
   (0x1e950, 10); (0x1fbf0, 10)]%N.

Definition is_digit (c : N) : bool :=
  existsb (λ run, (fst run <=? c) && (c <? fst run + snd run))%N decimal_digits.

Definition all_digits (text : list N) : bool := forallb is_digit text.

(** [\d+] against the whole of [text] *)
Definition digits1 (text : list N) : bool :=
  match text with
  | [] => false
  | _ :: _ => all_digits text
  end.

(** [\d*\.\d+] against the whole of [text] *)
Fixpoint decimal_fraction (text : list N) : bool :=
  match text with
  | [] => false
  | c :: text' =>
      if (c =? 0x2e)%N then digits1 text'
      else is_digit c && decimal_fraction text'
  end.

(** What [$] leaves out: one final line feed. *)
Fixpoint chomp (text : list N) : list N :=
  match text with
  | [] => []
  | c :: text' =>
      match text' with
      | [] => if (c =? Text.LF)%N then [] else text
      | _ :: _ => c :: chomp text'
      end
  end.

(** Upper-casing of the ASCII letters, the part of [str.upper] the level
    names need; every other byte is left as it is. *)
Definition upper_char (c : ascii) : ascii :=
  let n := nat_of_ascii c in
  if (97 <=? n)%nat && (n <=? 122)%nat then ascii_of_nat (n - 32) else c.

Fixpoint upper (s : string) : string :=
  match s with
  | EmptyString => EmptyString
  | String c s' => String (upper_char c) (upper s')
  end.

End Str.

(** ** argparse *)

Module Argparse.

(** The actions of the parser built by [parse_arguments]: the help action
    [ArgumentParser] registers by itself, then one per [add_argument]. *)
Inductive Action : Set :=
| help_action          (* -h, --help (add_help=True) *)
| filepath_action      (* lines 10-13: positional, store *)
| test_action          (* lines 15-19: store_true *)
| log_level_action     (* lines 21-26: store, with choices *)
| log_to_file_action.  (* lines 28-32: store_true *)

Definition option_strings (a : Action) : list string :=
  match a with
  | help_action => ["-h"; "--help"]
  | filepath_action => []
  | test_action => ["-t"; "--test"]
  | log_level_action => ["--log-level"]
  | log_to_file_action => ["--log-to-file"]
  end.

(** Number of argument strings an action takes: [store] with
    [nargs=None] takes one, [store_true] and [help] take none. *)
Definition nargs (a : Action) : nat :=
  match a with
  | filepath_action | log_level_action => 1
  | help_action | test_action | log_to_file_action => 0
  end.

Definition choices (a : Action) : option (list string) :=
  match a with
  | log_level_action => Some ["DEBUG"; "INFO"; "WARNING"; "ERROR"; "CRITICAL"]
  | _ => None
  end.

(** The optional actions in registration order. *)
Definition optionals : list Action :=
  [help_action; test_action; log_level_action; log_to_file_action].

(** [parser._option_string_actions], in insertion order. *)
Definition _option_string_actions : list (string * Action) :=
  a ← optionals; (λ s, (s, a)) <$> option_strings a.

Definition lookup_option (s : string) : option Action :=
  snd <$> List.find (λ p, String.eqb s (fst p)) _option_string_actions.

(** What [_get_values] hands to an action: the string itself when the
    action takes one argument and one string is left once the first [--]
    is taken out, the list of the strings otherwise. *)
Inductive Values : Set :=
| single (s : string)
| several (l : list string).

Coercion single : string >-> Values.

(** The namespace [parse_args] returns when [filepath] and [log_level] are
    strings, as the program expects them. *)
Record Namespace : Set := mkNamespace {
  filepath : string;
  test : bool;
  log_level : string;
  log_to_file : bool
}.

(** The namespace in general: a [store] action puts there whatever
    [_get_values] gave it. *)
Record RawNamespace : Set := mkRawNamespace {
  raw_filepath : Values;
  raw_test : bool;
  raw_log_level : Values;
  raw_log_to_file : bool
}.

Definition raw (ns : Namespace) : RawNamespace :=
  {| raw_filepath := single (filepath ns); raw_test := test ns;
     raw_log_level := single (log_level ns); raw_log_to_file := log_to_file ns |}.

Coercion raw : Namespace >-> RawNamespace.

(** [ArgumentError(action, message)] and the errors [parser.error] is
    called with, all turned into a usage message on standard error and
    exit status 2.  The message names the action, not the option string
    that was typed. *)
Inductive ArgumentError : Set :=
| ambiguous_option (arg : string) (matches : list string)
| ignored_explicit_argument (a : Action) (explicit_arg : string)
| expected_one_argument (a : Action)
| invalid_choice (a : Action) (value : string)
| required_arguments (names : list string)
| unrecognized_arguments (extras : list string).

Inductive parse_result : Set :=
| Parsed (ns : Namespace)
| ParsedRaw (ns : RawNamespace)   (* [filepath] or [log_level] is a list *)
| HelpExit                        (* print_help(); exit(0) *)
| UsageError (e : ArgumentError). (* print_usage(stderr); exit(2, message) *)

(** *** Classifying one argument string *)

Definition is_prefix_char (c : ascii) : bool := Ascii.eqb c Str.hyphen.

(** [_negative_number_matcher]: [^-\d+$|^-\d*\.\d+$] *)
Definition _negative_number_matcher (s : string) : bool :=
  match Str.chomp <$> Str.code_points s with
  | Some (c :: body) =>
      (c =? 0x2d)%N && (Str.digits1 body || Str.decimal_fraction body)
  | _ => false
  end.

Definition option_tuple : Set := (option Action * string * option string)%type.

Definition _get_option_tuples (option_string : string) : list option_tuple :=
  match option_string with
  | String c0 (String c1 rest) =>
      if is_prefix_char c0 && is_prefix_char c1 then
        let '(option_prefix, explicit_arg) :=
          match Str.split1 Str.equals option_string with
          | Some (p, e) => (p, Some e)
          | None => (option_string, None)
          end in
        '(s, a) ← _option_string_actions;
        if Str.startswith s option_prefix then [(Some a, s, explicit_arg)] else []
      else if is_prefix_char c0 then
        let short_option_prefix := String c0 (String c1 EmptyString) in
        let short_explicit_arg := rest in
        '(s, a) ← _option_string_actions;
        if String.eqb s short_option_prefix then [(Some a, s, Some short_explicit_arg)]
        else if Str.startswith s option_string then [(Some a, s, None)]
        else []
      else []
  | _ => []
  end.

Inductive optional_parse : Set :=
| positional                      (* [_parse_optional] returns None *)
| optional (t : option_tuple)
| ambiguous (e : ArgumentError).

Definition _parse_optional (arg_string : string) : optional_parse :=
  match arg_string with
  | EmptyString => positional
  | String c0 tail =>
      if negb (is_prefix_char c0) then positional
      else match lookup_option arg_string with
      | Some a => optional (Some a, arg_string, None)
      | None =>
      match tail with
      | EmptyString => positional
      | _ =>
      let by_equals :=
        match Str.split1 Str.equals arg_string with
        | Some (option_string, explicit_arg) =>
            match lookup_option option_string with
            | Some a => Some (Some a, option_string, Some explicit_arg)
            | None => None
            end
        | None => None
        end in
      match by_equals with
      | Some t => optional t
      | None =>
      match _get_option_tuples arg_string with
      | (_ :: _ :: _) as option_tuples =>
          ambiguous (ambiguous_option arg_string ((λ t, snd (fst t)) <$> option_tuples))
      | [t] => optional t
      | [] =>
          if _negative_number_matcher arg_string then positional
          else if Str.contains Str.space arg_string then positional
          else optional (None, arg_string, None)
      end end end end
  end.

(** *** The pattern of the argument strings

    [_parse_known_args] first maps every argument string to a letter:
    [-] for the first [--], [A] for a positional-looking string and for
    everything after the first [--], [O] for an option string. *)
Inductive item : Set :=
| dashdash
| arg (s : string)
| opt (s : string) (t : option_tuple).

Fixpoint classify (arg_strings : list string) : ArgumentError + list item :=
  match arg_strings with
  | [] => inr []
  | s :: rest =>
      if String.eqb s "--" then inr (dashdash :: (arg <$> rest))
      else match _parse_optional s with
           | ambiguous e => inl e
           | positional =>
               match classify rest with
               | inl e => inl e
               | inr items => inr (arg s :: items)
               end
           | optional t =>
               match classify rest with
               | inl e => inl e
               | inr items => inr (opt s t :: items)
               end
           end
  end.

(** The argument string an item stands for. *)
Definition item_string (i : item) : string :=
  match i with
  | dashdash => "--"
  | arg s => s
  | opt s _ => s
  end.

(** *** Taking actions *)

Record pstate : Set := mkState {
  st_filepath : option Values;   (* None until the positional is matched *)
  st_test : bool;
  st_log_level : Values;
  st_log_to_file : bool;
  extras : list string
}.

(** The defaults [parse_known_args] puts in the namespace. *)
Definition initial : pstate :=
  {| st_filepath := None; st_test := false; st_log_level := single "WARNING";
     st_log_to_file := false; extras := [] |}.

Definition add_extras (l : list string) (st : pstate) : pstate :=
  {| st_filepath := st_filepath st; st_test := st_test st;
     st_log_level := st_log_level st; st_log_to_file := st_log_to_file st;
     extras := extras st ++ l |}.

Definition add_extra (s : string) (st : pstate) : pstate := add_extras [s] st.

(** [l.remove(x)] when [x] may be missing: [l] without the first [x]. *)
Fixpoint remove_first (x : string) (l : list string) : list string :=
  match l with
  | [] => []
  | y :: l' => if String.eqb y x then l' else y :: remove_first x l'
  end.

(** [_check_value]: [value not in action.choices] *)
Definition _check_value (a : Action) (value : string) : bool :=
  match choices a with
  | Some cs => bool_decide (value ∈ cs)
  | None => true
  end.

(** [_get_values], for every action: the first [--] among the argument
    strings is taken out; a single string left for an action that takes
    one argument is checked against the choices and is the value; any
    other list of strings is the value as a list, each string checked. *)
Definition _get_values (a : Action) (arg_strings : list string)
    : ArgumentError + Values :=
  match remove_first "--" arg_strings, nargs a with
  | [arg_string], 1 =>
      if _check_value a arg_string then inr (single arg_string)
      else inl (invalid_choice a arg_string)
  | values, _ =>
      match List.find (λ v, negb (_check_value a v)) values with
      | Some v => inl (invalid_choice a v)
      | None => inr (several values)
      end
  end.

(** [take_action]: the values are computed, then the action is called:
    [help] prints and exits, [store_true] sets its flag, [store] puts the
    values in the namespace.  None of these looks at the option string. *)
Definition take_action (a : Action) (argument_strings : list string)
    (option_string : option string) (st : pstate) : parse_result + pstate :=
  match _get_values a argument_strings with
  | inl e => inl (UsageError e)
  | inr argument_values =>
      match a with
      | help_action => inl HelpExit
      | test_action =>
          inr {| st_filepath := st_filepath st; st_test := true;
                 st_log_level := st_log_level st;
                 st_log_to_file := st_log_to_file st; extras := extras st |}
      | log_to_file_action =>
          inr {| st_filepath := st_filepath st; st_test := st_test st;
                 st_log_level := st_log_level st;
                 st_log_to_file := true; extras := extras st |}
      | log_level_action =>
          inr {| st_filepath := st_filepath st; st_test := st_test st;
                 st_log_level := argument_values;
                 st_log_to_file := st_log_to_file st; extras := extras st |}
      | filepath_action =>
          inr {| st_filepath := Some argument_values; st_test := st_test st;
                 st_log_level := st_log_level st;
                 st_log_to_file := st_log_to_file st; extras := extras st |}
      end
  end.

(** The actions collected in [action_tuples], taken in order. *)
Fixpoint take_actions (l : list (Action * list string * string)) (st : pstate)
    : parse_result + pstate :=
  match l with
  | [] => inr st
  | (a, args, s) :: l' =>
      match take_action a args (Some s) st with
      | inl r => inl r
      | inr st' => take_actions l' st'
      end
  end.

(** *** An option with an explicit argument

    The [while True] loop of [consume_optional] when [explicit_arg] is
    not None.  A single-dash option that takes no argument hands the rest
    of the string on as further single-dash options ([-tt]); an option
    that takes one argument keeps it; anything else is an error.  The
    result is the actions to take without argument, then the last action
    with its explicit argument, if any is left. *)
Fixpoint explicit_chain (a : Action) (option_string : string) (explicit_arg : string)
    : ArgumentError + (list (Action * list string * string) * (Action * string * option string)) :=
  if (nargs a =? 1)%nat then inr ([], (a, option_string, Some explicit_arg))
  else
    match option_string, explicit_arg with
    | String c0 (String c1 _), String e0 e' =>
        if negb (is_prefix_char c1) then
          let option_string' := String c0 (String e0 EmptyString) in
          match lookup_option option_string' with
          | Some a' =>
              match e' with
              | EmptyString => inr ([(a, [], option_string)], (a', option_string', None))
              | _ =>
                  match explicit_chain a' option_string' e' with
                  | inl e => inl e
                  | inr (l, last) => inr ((a, [], option_string) :: l, last)
                  end
              end
          | None => inl (ignored_explicit_argument a explicit_arg)
          end
        else inl (ignored_explicit_argument a explicit_arg)
    | _, _ => inl (ignored_explicit_argument a explicit_arg)
    end.

(** *** Consuming the argument strings

    [consume_optional] and [consume_positionals] move an index over the
    argument strings; here the strings are visited one at a time and the
    mode records what the last option left open:
    - [scanning]: at a fresh index;
    - [expecting]: an option that takes one argument waits for it.  The
      pattern of an option holds no dash, so the next string has to be
      an [A].
    The pattern of the positional is dashes, one [A], dashes: it takes the
    [--] that comes right before or right after its string, and
    [_get_values] removes it again. *)
Inductive mode : Set :=
| scanning
| expecting (pending : list (Action * list string * string))
            (a : Action) (option_string : string).

(** The checks after the loop: required arguments ([parse_known_args]),
    then left-over strings ([parse_args]). *)
Definition finish (st : pstate) : parse_result :=
  match st_filepath st with
  | None => UsageError (required_arguments ["filepath"])
  | Some path =>
      match extras st with
      | [] =>
          match path, st_log_level st with
          | single path, single level =>
              Parsed {| filepath := path; test := st_test st;
                        log_level := level;
                        log_to_file := st_log_to_file st |}
          | _, _ =>
              ParsedRaw {| raw_filepath := path; raw_test := st_test st;
                           raw_log_level := st_log_level st;
                           raw_log_to_file := st_log_to_file st |}
          end
      | _ :: _ => UsageError (unrecognized_arguments (extras st))
      end
  end.

(** At the first [--], with every option behind: the positional, if it is
    still to come, takes the [--] and the string after it; whatever is
    left goes to the extras. *)
Definition after_dashdash (strings : list string) (st : pstate) : parse_result :=
  match st_filepath st, strings with
  | None, v :: strings' =>
      match take_action filepath_action ["--"; v] None st with
      | inl r => r
      | inr st' => finish (add_extras strings' st')
      end
  | _, _ => finish (add_extras ("--" :: strings) st)
  end.

Fixpoint consume (m : mode) (items : list item) (st : pstate) : parse_result :=
  match items with
  | [] =>
      match m with
      | expecting _ a _ => UsageError (expected_one_argument a)
      | scanning => finish st
      end
  | dashdash :: rest =>
      match m with
      | expecting _ a _ => UsageError (expected_one_argument a)
      | scanning => after_dashdash (item_string <$> rest) st
      end
  | arg v :: rest =>
      match m with
      | expecting p a s =>
          match take_actions (p ++ [(a, [v], s)]) st with
          | inl r => r
          | inr st' => consume scanning rest st'
          end
      | scanning =>
          match st_filepath st with
          | Some _ => consume scanning rest (add_extra v st)
          | None =>
              match rest with
              | dashdash :: rest' =>
                  match take_action filepath_action [v; "--"] None st with
                  | inl r => r
                  | inr st' => finish (add_extras (item_string <$> rest') st')
                  end
              | _ =>
                  match take_action filepath_action [v] None st with
                  | inl r => r
                  | inr st' => consume scanning rest st'
                  end
              end
          end
      end
  | opt s (None, _, _) :: rest =>
      match m with
      | expecting _ a _ => UsageError (expected_one_argument a)
      | scanning => consume scanning rest (add_extra s st)
      end
  | opt s (Some a, option_string, Some explicit_arg) :: rest =>
      match m with
      | expecting _ a' _ => UsageError (expected_one_argument a')
      | scanning =>
          match explicit_chain a option_string explicit_arg with
          | inl e => UsageError e
          | inr (p, (a', s', Some e')) =>
              match take_actions (p ++ [(a', [e'], s')]) st with
              | inl r => r
              | inr st' => consume scanning rest st'
              end
          | inr (p, (a', s', None)) =>
              if (nargs a' =? 0)%nat then
                match take_actions (p ++ [(a', [], s')]) st with
                | inl r => r
                | inr st' => consume scanning rest st'
                end
              else consume (expecting p a' s') rest st
          end
      end
  | opt s (Some a, option_string, None) :: rest =>
      match m with
      | expecting _ a' _ => UsageError (expected_one_argument a')
      | scanning =>
          if (nargs a =? 0)%nat then
            match take_actions [(a, [], option_string)] st with
            | inl r => r
            | inr st' => consume scanning rest st'
            end
          else consume (expecting [] a option_string) rest st
      end
  end.

(** [parser.parse_args(args)] *)
Definition parse_args (args : list string) : parse_result :=
  match classify args with
  | inl e => UsageError e
  | inr items => consume scanning items initial
  end.

End Argparse.

(** ** The process and its world *)

Inductive Exception : Set :=
| SystemExit (code : Z)
| UnicodeDecodeError
| ValueError (level : string)   (* Unknown level: <repr of the level> *)
| AttributeError                (* 'list' object has no attribute 'upper' *)
| TypeError.                    (* stat: path should be string, ..., not list *)

(** What reaches a console stream. *)
Inductive output : Set :=
| line (text : string)                       (* a text and its newline *)
| help_message                               (* parser.format_help() *)
| usage_message                              (* parser.format_usage() *)
| error_message (e : Argparse.ArgumentError) (* prog: error: ... *)
| traceback (e : Exception).

(** The accesses to the file system, with the path name as the program
    gave it. *)
Inductive fs_event : Set :=
| ev_exists (path : string)        (* os.path.exists *)
| ev_open_read (path : string)     (* open(path, 'r') *)
| ev_open_append (path : string)   (* open(path, 'a') *)
| ev_write (path : string).

(** The two formats a handler of this process can carry: the one
    [set_logger] passes to [basicConfig], and the library default
    ([BASIC_FORMAT]) of a root logger configured by its first use. *)
Inductive Formatter : Set :=
| dated_format      (* "%(asctime)s - %(levelname)s - %(message)s" *)
| basic_format.     (* "%(levelname)s:%(name)s:%(message)s" *)

Inductive Handler : Set :=
| StreamHandler (fmt : Formatter)                    (* to sys.stderr *)
| FileHandler (filename : string) (fmt : Formatter).

Record LogRecord : Set := mkLogRecord {
  levelno : Z;
  message : string
}.

Record World : Type := mkWorld {
  argv : list string;                (* sys.argv *)
  clock : string;                    (* the time, as datefmt prints it *)
  realpath : string → string;        (* the file a path name leads to *)
  fs : gmap string (list byte);      (* the files, by real path *)
  stdout : list output;
  stderr : list output;
  handlers : list Handler;           (* logging.root.handlers *)
  level : Z;                         (* logging.root.level *)
  logged : list LogRecord;           (* every call of logging.info/error *)
  fs_trace : list fs_event
}.

(** A process starts with empty streams, the root logger at WARNING without
    handler, and no file system access yet.  [resolve] tells which file
    each path name denotes in the directory the process runs in. *)
Definition start_with (resolve : string → string) (args : list string) (now : string)
    (files : gmap string (list byte)) : World :=
  {| argv := args; clock := now; realpath := resolve; fs := files;
     stdout := []; stderr := [];
     handlers := []; level := 30; logged := []; fs_trace := [] |}.

(** The start where every path name is a real path: no two names denote
    the same file. *)
Definition start (args : list string) (now : string) (files : gmap string (list byte)) : World :=
  start_with (λ path, path) args now files.

(** Computations that read and change the world and may raise. *)
Definition M (A : Type) : Type := World → (Exception + A) * World.

Definition ret {A} (a : A) : M A := λ w, (inr a, w).
Definition raise {A} (e : Exception) : M A := λ w, (inl e, w).
Definition bind {A B} (k : A → M B) (m : M A) : M B :=
  λ w, match m w with
       | (inr a, w') => k a w'
       | (inl e, w') => (inl e, w')
       end.
Definition gets {A} (f : World → A) : M A := λ w, (inr (f w), w).
Definition modify (f : World → World) : M unit := λ w, (inr tt, f w).

(** Sequencing is written [x ← m; k] and [m;; k]. *)
Global Instance M_ret : MRet M := @ret.
Global Instance M_bind : MBind M := @bind.

Definition set_fs (f : gmap string (list byte)) (w : World) : World :=
  {| argv := argv w; clock := clock w; realpath := realpath w; fs := f;
     stdout := stdout w; stderr := stderr w; handlers := handlers w;
     level := level w; logged := logged w; fs_trace := fs_trace w |}.
Definition set_stdout (o : list output) (w : World) : World :=
  {| argv := argv w; clock := clock w; realpath := realpath w; fs := fs w;
     stdout := o; stderr := stderr w; handlers := handlers w;
     level := level w; logged := logged w; fs_trace := fs_trace w |}.
Definition set_stderr (o : list output) (w : World) : World :=
  {| argv := argv w; clock := clock w; realpath := realpath w; fs := fs w;
     stdout := stdout w; stderr := o; handlers := handlers w;
     level := level w; logged := logged w; fs_trace := fs_trace w |}.
Definition set_handlers (h : list Handler) (w : World) : World :=
  {| argv := argv w; clock := clock w; realpath := realpath w; fs := fs w;
     stdout := stdout w; stderr := stderr w; handlers := h;
     level := level w; logged := logged w; fs_trace := fs_trace w |}.
Definition set_level (l : Z) (w : World) : World :=
  {| argv := argv w; clock := clock w; realpath := realpath w; fs := fs w;
     stdout := stdout w; stderr := stderr w; handlers := handlers w;
     level := l; logged := logged w; fs_trace := fs_trace w |}.
Definition set_logged (l : list LogRecord) (w : World) : World :=
  {| argv := argv w; clock := clock w; realpath := realpath w; fs := fs w;
     stdout := stdout w; stderr := stderr w; handlers := handlers w;
     level := level w; logged := l; fs_trace := fs_trace w |}.
Definition set_fs_trace (t : list fs_event) (w : World) : World :=
  {| argv := argv w; clock := clock w; realpath := realpath w; fs := fs w;
     stdout := stdout w; stderr := stderr w; handlers := handlers w;
     level := level w; logged := logged w; fs_trace := t |}.

Definition write_stdout (o : output) : M unit := modify (λ w, set_stdout (stdout w ++ [o]) w).
Definition write_stderr (o : output) : M unit := modify (λ w, set_stderr (stderr w ++ [o]) w).
Definition touch (e : fs_event) : M unit := modify (λ w, set_fs_trace (fs_trace w ++ [e]) w).

(** [print(text)] *)
Definition print (text : string) : M unit := write_stdout (line text).

(** ** The file system *)

Module Os.

(** [os.path.exists(path)]: is there a file where the path name leads? *)
Definition path_exists (path : string) : M bool :=
  touch (ev_exists path);;
  gets (λ w, bool_decide (is_Some (fs w !! realpath w path))).

(** [open(path, 'r', encoding='utf-8')] followed by [readlines()] under
    [with]: the content at the time of the call, decoded and split.
    The file is there whenever the program opens it; a missing file
    would be [FileNotFoundError], an exit with a traceback like any
    other. *)
Definition open_readlines (path : string) : M (list (list N)) :=
  touch (ev_open_read path);;
  content ← gets (λ w, default [] (fs w !! realpath w path));
  match Text.readlines content with
  | Some lines => ret lines
  | None => raise UnicodeDecodeError
  end.

(** [open(path, 'a')]: creates the file when it is missing. *)
Definition open_append (path : string) : M unit :=
  touch (ev_open_append path);;
  modify (λ w, match fs w !! realpath w path with
               | Some _ => w
               | None => set_fs (<[realpath w path := []]> (fs w)) w
               end).

(** Writing [text] and a newline at the end of the file [path] denotes. *)
Definition append_line (path : string) (text : string) : M unit :=
  touch (ev_write path);;
  modify (λ w, set_fs (<[realpath w path :=
                           (default [] (fs w !! realpath w path)
                            ++ list_byte_of_string text ++ [x0a])%list]> (fs w)) w).

End Os.

(** ** logging *)

Module Logging.

Definition DEBUG : Z := 10.
Definition INFO : Z := 20.
Definition WARNING : Z := 30.
Definition ERROR : Z := 40.
Definition CRITICAL : Z := 50.

Definition _nameToLevel : list (string * Z) :=
  [("CRITICAL", 50); ("FATAL", 50); ("ERROR", 40); ("WARN", 30);
   ("WARNING", 30); ("INFO", 20); ("DEBUG", 10); ("NOTSET", 0)]%Z.

Definition _levelToName (l : Z) : string :=
  if (l =? 50)%Z then "CRITICAL" else if (l =? 40)%Z then "ERROR"
  else if (l =? 30)%Z then "WARNING" else if (l =? 20)%Z then "INFO"
  else if (l =? 10)%Z then "DEBUG" else if (l =? 0)%Z then "NOTSET"
  else "Level " +:+ pretty l.

Definition lookup_level (name : string) : option Z :=
  snd <$> List.find (λ p, String.eqb name (fst p)) _nameToLevel.

(** [_checkLevel] on a level given by name. *)
Definition _checkLevel (name : string) : M Z :=
  match lookup_level name with
  | Some l => ret l
  | None => raise (ValueError name)
  end.

(** [Formatter.format]; [datefmt] decides how [asctime] looks. *)
Definition format (f : Formatter) (asctime : string) (r : LogRecord) : string :=
  match f with
  | dated_format =>
      asctime +:+ " - " +:+ _levelToName (levelno r) +:+ " - " +:+ message r
  | basic_format =>
      _levelToName (levelno r) +:+ ":root:" +:+ message r
  end.

(** [logging.basicConfig(filename=..., level=..., format=..., datefmt=...)]
    with the format and date format of lines 42-43 and 48-49:
    does nothing when the root logger already has a handler; otherwise
    creates the handler (a [FileHandler] opens its file at once, for
    appending), then sets the level. *)
Definition basicConfig (filename : option string) (level_name : string) : M unit :=
  hs ← gets handlers;
  match hs with
  | _ :: _ => ret tt
  | [] =>
      match filename with
      | Some name =>
          (Os.open_append name;; modify (set_handlers [FileHandler name dated_format]))
      | None => modify (set_handlers [StreamHandler dated_format])
      end;;
      l ← _checkLevel level_name;
      modify (set_level l)
  end.

(** [Handler.emit] *)
Definition emit (h : Handler) (r : LogRecord) : M unit :=
  now ← gets clock;
  match h with
  | StreamHandler f => write_stderr (line (format f now r))
  | FileHandler name f => Os.append_line name (format f now r)
  end.

Fixpoint callHandlers (hs : list Handler) (r : LogRecord) : M unit :=
  match hs with
  | [] => ret tt
  | h :: hs' => (emit h r;; callHandlers hs' r)
  end.

(** [logging.log(level, msg)] on the root logger: configure the console
    when no handler is installed, then hand the record to the handlers if
    the level is enabled. *)
Definition log (lvl : Z) (msg : string) : M unit :=
  modify (λ w, set_logged (logged w ++ [mkLogRecord lvl msg]) w);;
  hs ← gets handlers;
  match hs with
  | [] => modify (set_handlers [StreamHandler basic_format])
  | _ :: _ => ret tt
  end;;
  threshold ← gets level;
  if (threshold <=? lvl)%Z then
    hs' ← gets handlers;
    callHandlers hs' (mkLogRecord lvl msg)
  else ret tt.

Definition info (msg : string) : M unit := log INFO msg.
Definition error (msg : string) : M unit := log ERROR msg.

End Logging.

(** ** The program *)

Import Argparse.

(** [parse_arguments()], lines 6-34: the parser is the table of actions in
    [Argparse]; [parse_args()] reads [sys.argv[1:]]. *)
Definition parse_arguments : M RawNamespace :=
  args ← gets (λ w, tail (argv w));
  match parse_args args with
  | Parsed ns => ret (raw ns)
  | ParsedRaw ns => ret ns
  | HelpExit => (write_stdout help_message;; raise (SystemExit 0))
  | UsageError e =>
      (write_stderr usage_message;; write_stderr (error_message e);;
       raise (SystemExit 2))
  end.

(** [level.upper()], which a list does not have. *)
Definition upper (level : Values) : M string :=
  match level with
  | single name => ret (Str.upper name)
  | several _ => raise AttributeError
  end.

(** [set_logger(args)], lines 36-50.  The arguments of [basicConfig] are
    evaluated before the call. *)
Definition set_logger (args : RawNamespace) : M unit :=
  if raw_log_to_file args then
    level_name ← upper (raw_log_level args);
    Logging.basicConfig (Some "logfile.log") level_name
  else
    level_name ← upper (raw_log_level args);
    Logging.basicConfig None level_name.

(** [count_lines_in_file(filepath, test_mode)], lines 53-68.
    [os.path.exists] raises [TypeError] on a list. *)
Definition count_lines_in_file (filepath : Values) (test_mode : bool) : M unit :=
  if test_mode then
    Logging.info "Test mode: skipping actual file processing."
  else
    match filepath with
    | several _ => raise TypeError
    | single filepath =>
        found ← Os.path_exists filepath;
        if negb found then
          Logging.error ("File not found: " +:+ filepath)
        else
          lines ← Os.open_readlines filepath;
          let line_count := length lines in
          Logging.info ("Processed file: " +:+ filepath);;
          Logging.info ("Total lines: " +:+ pretty line_count);;
          print (" " +:+ filepath +:+ " has " +:+ pretty line_count +:+ " lines.")
    end.

(** [main()], lines 70-73. *)
Definition main : M unit :=
  args ← parse_arguments;
  set_logger args;;
  count_lines_in_file (raw_filepath args) (raw_test args).

(** The process: exit status 0 when [main] returns, the code of a
    [SystemExit], and 1 with a traceback on standard error for any other
    exception. *)
Definition run (w : World) : Z * World :=
  match main w with
  | (inr _, w') => (0%Z, w')
  | (inl (SystemExit code), w') => (code, w')
  | (inl e, w') => (1%Z, set_stderr (stderr w' ++ [traceback e]) w')
  end.

Definition exit_code (w : World) : Z := fst (run w).
Definition final (w : World) : World := snd (run w).

(** ** Vocabulary of the properties *)

(** The five level names of [--log-level]. *)
Definition level_names : list string :=
  ["DEBUG"; "INFO"; "WARNING"; "ERROR"; "CRITICAL"].

(** The text of a file made of the given lines, each ended by a line feed. *)
Definition newline_terminated (lines : list (list N)) : list N :=
  mjoin ((λ l, l ++ [Text.LF])%list <$> lines).

(** A line holds no line break of its own. *)
Definition no_line_break (l : list N) : Prop := (Text.LF ∉ l) ∧ (Text.CR ∉ l).

(** The records a logger at [threshold] lets through. *)
Definition passing (threshold : Z) (records : list LogRecord) : list LogRecord :=
  filter (λ r, threshold ≤ levelno r)%Z records.

(** What the records look like on the console and in the log file. *)
Definition console_lines (now : string) (records : list LogRecord) : list output :=
  (λ r, line (Logging.format dated_format now r)) <$> records.

Definition file_lines (now : string) (records : list LogRecord) : list byte :=
  mjoin ((λ r, list_byte_of_string (Logging.format dated_format now r) ++ [x0a])%list
           <$> records).

(** The message printed on the success path. *)
Definition summary (filepath : string) (line_count : nat) : string :=
  " " +:+ filepath +:+ " has " +:+ pretty line_count +:+ " lines.".

(** The handler [set_logger] installs. *)
Definition log_handler (ns : Namespace) : Handler :=
  if log_to_file ns then FileHandler "logfile.log" dated_format
  else StreamHandler dated_format.

(** The files once [set_logger] has run in a fresh process: under
    [log_to_file] the log file is there. *)
Definition opened (resolve : string → string) (ns : Namespace)
    (files : gmap string (list byte)) : gmap string (list byte) :=
  if log_to_file ns then
    match files !! resolve "logfile.log" with
    | Some _ => files
    | None => <[resolve "logfile.log" := []]> files
    end
  else files.

(** The world once [set_logger] has run in a fresh process. *)
Definition configured (resolve : string → string) (ns : Namespace) (args : list string)
    (now : string) (files : gmap string (list byte)) : World :=
  {| argv := args; clock := now; realpath := resolve;
     fs := opened resolve ns files;
     stdout := []; stderr := [];
     handlers := [log_handler ns];
     level := default 0%Z (Logging.lookup_level (log_level ns));
     logged := [];
     fs_trace := if log_to_file ns then [ev_open_append "logfile.log"] else [] |}.

(** The world after a record went through a root logger whose only
    handler is [h]. *)
Definition delivered (h : Handler) (lvl : Z) (msg : string) (w : World) : World :=
  let r := mkLogRecord lvl msg in
  let w' := set_logged (logged w ++ [r]) w in
  if (level w <=? lvl)%Z then
    match h with
    | StreamHandler f =>
        set_stderr (stderr w ++ [line (Logging.format f (clock w) r)]) w'
    | FileHandler name f =>
        set_fs (<[realpath w name :=
                    (default [] (fs w !! realpath w name)
                     ++ list_byte_of_string (Logging.format f (clock w) r)
                     ++ [x0a])%list]> (fs w))
          (set_fs_trace (fs_trace w ++ [ev_write name]) w')
    end
  else w'.

(** What the line counter does, as seen from outside, given the entry of
    the file system its path leads to: how it ends, what it prints, and
    the records it hands to [logging], in order. *)
Definition observation (path : string) (test_mode : bool) (entry : option (list byte))
    : (Exception + unit) * list output * list LogRecord :=
  if test_mode then
    (inr tt, [],
     [mkLogRecord Logging.INFO "Test mode: skipping actual file processing."])
  else
    match entry with
    | None => (inr tt, [], [mkLogRecord Logging.ERROR ("File not found: " +:+ path)])
    | Some content =>
        match Text.readlines content with
        | None => (inl UnicodeDecodeError, [], [])
        | Some lines =>
            (inr tt, [line (summary path (length lines))],
             [mkLogRecord Logging.INFO ("Processed file: " +:+ path);
              mkLogRecord Logging.INFO ("Total lines: " +:+ pretty (length lines))])
        end
    end.

(** The records of a run whose arguments gave [ns], from the files it
    starts with. *)
Definition records_of (resolve : string → string) (ns : Namespace)
    (files : gmap string (list byte)) : list LogRecord :=
  snd (observation (filepath ns) (test ns)
         (opened resolve ns files !! resolve (filepath ns))).

(** The sink of handler [h] holds the lines of [records], and nothing
    else of the world of files and console changed since [files]. *)
Definition routed (h : Handler) (files : gmap string (list byte))
    (records : list LogRecord) (w : World) : Prop :=
  match h with
  | StreamHandler f =>
      stderr w = ((λ r, line (Logging.format f (clock w) r)) <$> records)
      ∧ fs w = files
  | FileHandler name f =>
      stderr w = []
      ∧ (∀ file, file ≠ realpath w name → fs w !! file = files !! file)
      ∧ fs w !! realpath w name =
          Some (default [] (files !! realpath w name)
                ++ mjoin ((λ r, list_byte_of_string (Logging.format f (clock w) r) ++ [x0a])
                            <$> records))
  end.

(** The invariant of the parser state behind [log_level]: one of the five
    names, or the empty list that [--log-level=--] leaves. *)
Definition level_ok (st : pstate) : Prop :=
  (∃ name, st_log_level st = single name ∧ name ∈ level_names)
  ∨ st_log_level st = several [].

(** The pattern items of [args]: an [A] before the first [--] is one of
    the argument strings and is not [--] itself, every item after the
    first [--] stands for one of the argument strings, and an option
    never stands for the positional action. *)
Fixpoint items_of (args : list string) (items : list item) : Prop :=
  match items with
  | [] => True
  | dashdash :: rest => Forall (λ i, item_string i ∈ args) rest
  | arg v :: rest => v ∈ args ∧ v ≠ "--" ∧ items_of args rest
  | opt _ (a, _, _) :: rest => a ≠ Some filepath_action ∧ items_of args rest
  end.

(** The file path, once matched, is one of the argument strings. *)
Definition path_of (args : list string) (st : pstate) : Prop :=
  ∀ v, st_filepath st = Some v → ∃ path, v = single path ∧ path ∈ args.

(** What [parse_args] may return for the argument strings [args]: the
    path is one of them, and the level is one of the five names, or else
    the empty list. *)
Definition result_of (args : list string) (r : parse_result) : Prop :=
  match r with
  | Parsed ns => filepath ns ∈ args ∧ log_level ns ∈ level_names
  | ParsedRaw ns =>
      (∃ path, raw_filepath ns = single path ∧ path ∈ args)
      ∧ raw_log_level ns = several []
  | HelpExit | UsageError _ => True
  end.

(** The results that end a parse before the namespace is complete. *)
Definition stops (r : parse_result) : Prop :=
  match r with
  | Parsed _ | ParsedRaw _ => False
  | HelpExit | UsageError _ => True
  end.

(** The text of a file made of the given lines, each ended by [eol]. *)
Definition terminated_by (eol : list N) (lines : list (list N)) : list N :=
  mjoin ((λ l, l ++ eol)%list <$> lines).

(** A byte of the ASCII range. *)
Definition is_ascii (b : byte) : Prop := (Byte.to_N b < 0x80)%N.

(** The flags without argument. *)
Definition is_flag (s : string) : Prop := s ∈ ["-t"; "--test"; "--log-to-file"].

(** The namespace for a path and a list of flags without argument. *)
Definition flags_namespace (path : string) (flags : list string) : Namespace :=
  {| filepath := path;
     test := bool_decide ("-t" ∈ flags ∨ "--test" ∈ flags);
     log_level := "WARNING";
     log_to_file := bool_decide ("--log-to-file" ∈ flags) |}.

(** The parser state after the flags [seen]. *)
Definition flags_state (path : option string) (seen : list string) : pstate :=
  {| st_filepath := single <$> path;
     st_test := bool_decide ("-t" ∈ seen ∨ "--test" ∈ seen);
     st_log_level := single "WARNING";
     st_log_to_file := bool_decide ("--log-to-file" ∈ seen);
     extras := [] |}.

(** Actions collected ahead of the last one of an argument string: flags,
    taken without argument. *)
Definition flag_actions (l : list (Action * list string * string)) : Prop :=
  Forall (λ t, nargs (fst (fst t)) = 0 ∧ snd (fst t) = []) l.

(** A mode whose pending actions are flags and which waits for the
    argument of [--log-level]. *)
Definition optional_mode (m : mode) : Prop :=
  match m with
  | expecting pending a _ => flag_actions pending ∧ a = log_level_action
  | scanning => True
  end.

(** * Properties *)

(** ** The argument parser *)

Section parser.

(** The values of the actions of this parser. *)
Lemma get_values_flag a : nargs a = 0 → _get_values a [] = inr (several []).
Proof. by destruct a. Qed.

Lemma get_values_filepath v :
  v ≠ "--" → _get_values filepath_action [v] = inr (single v).
Proof.
  intros Hv. unfold _get_values. simpl.
  by destruct (String.eqb_spec v "--").
Qed.

Lemma get_values_filepath_after v :
  _get_values filepath_action ["--"; v] = inr (single v).
Proof. reflexivity. Qed.

Lemma get_values_filepath_before v :
  _get_values filepath_action [v; "--"] = inr (single v).
Proof.
  unfold _get_values. simpl.
  by destruct (String.eqb_spec v "--") as [->|].
Qed.

Lemma get_values_log_level v :
  _get_values log_level_action [v] =
    if String.eqb v "--" then inr (several [])
    else if bool_decide (v ∈ level_names) then inr (single v)
         else inl (invalid_choice log_level_action v).
Proof.
  unfold _get_values. simpl. by destruct (String.eqb v "--").
Qed.

(** An action that stops the parse stops it with the help message or a
    usage error. *)
Lemma take_action_stops a args s st r : take_action a args s st = inl r → stops r.
Proof.
  unfold take_action. destruct (_get_values a args); [by intros [= <-]|].
  destruct a; intros [= <-]; done.
Qed.

Lemma take_actions_stops l : ∀ st r, take_actions l st = inl r → stops r.
Proof.
  induction l as [|[[a args] s] l IH]; simpl; intros st r; [done|].
  destruct (take_action a args (Some s) st) eqn:E; [|apply IH].
  intros [= <-]. by eapply take_action_stops.
Qed.

(** A flag leaves the path and the level of the state alone. *)
Lemma take_action_flag a s st st' :
  nargs a = 0 → take_action a [] s st = inr st' →
  st_filepath st' = st_filepath st ∧ st_log_level st' = st_log_level st
  ∧ extras st' = extras st.
Proof.
  intros Ha. unfold take_action. rewrite get_values_flag by done.
  destruct a; try done; by intros [= <-].
Qed.

Lemma take_actions_flags l : ∀ st st',
  flag_actions l → take_actions l st = inr st' →
  st_filepath st' = st_filepath st ∧ st_log_level st' = st_log_level st
  ∧ extras st' = extras st.
Proof.
  unfold flag_actions.
  induction l as [|[[a args] s] l IH]; simpl; intros st st' Hl H.
  - by simplify_eq.
  - apply Forall_cons in Hl as [[Ha Hargs] Hl]. simpl in Ha, Hargs. subst args.
    destruct (take_action a [] (Some s) st) as [|st1] eqn:E; [done|].
    destruct (IH _ _ Hl H) as (-> & -> & ->). by eapply take_action_flag.
Qed.

Lemma take_actions_app l1 l2 st :
  take_actions (l1 ++ l2) st =
    match take_actions l1 st with
    | inl r => inl r
    | inr st' => take_actions l2 st'
    end.
Proof.
  revert st. induction l1 as [|[[a args] s] l1 IH]; intros st; simpl; [done|].
  by destruct (take_action a args (Some s) st).
Qed.

(** The argument of [--log-level]: one of the five names, or [--]. *)
Lemma take_action_log_level v s st st' :
  take_action log_level_action [v] s st = inr st' →
  st_filepath st' = st_filepath st ∧ extras st' = extras st ∧ level_ok st'.
Proof.
  unfold take_action, level_ok. rewrite get_values_log_level.
  destruct (String.eqb v "--"); [intros [= <-]; simpl; auto|].
  case_bool_decide as Hv; [|done]. intros [= <-]. simpl. eauto 6.
Qed.

Lemma take_action_filepath args v s st :
  _get_values filepath_action args = inr (single v) →
  take_action filepath_action args s st =
    inr {| st_filepath := Some (single v); st_test := st_test st;
           st_log_level := st_log_level st;
           st_log_to_file := st_log_to_file st; extras := extras st |}.
Proof. unfold take_action. by intros ->. Qed.

Lemma option_string_actions_optional s a :
  (s, a) ∈ _option_string_actions → a ≠ filepath_action.
Proof.
  unfold _option_string_actions. cbn.
  rewrite !elem_of_cons, elem_of_nil. intros H.
  repeat (destruct H as [H|H]; [by simplify_eq|]). done.
Qed.

Lemma lookup_option_optional s a : lookup_option s = Some a → a ≠ filepath_action.
Proof.
  unfold lookup_option. intros H.
  destruct (List.find _ _) as [[s' a']|] eqn:E; [|done].
  simpl in H. simplify_eq.
  apply List.find_some in E as [E _].
  apply list_elem_of_In in E. by eapply option_string_actions_optional.
Qed.

Lemma _get_option_tuples_optional s t :
  t ∈ _get_option_tuples s → fst (fst t) ≠ Some filepath_action.
Proof.
  unfold _get_option_tuples.
  destruct s as [|c0 [|c1 rest]]; try by intros ?%elem_of_nil.
  destruct (is_prefix_char c0 && is_prefix_char c1);
    [destruct (Str.split1 _ _) as [[? ?]|]
    |destruct (is_prefix_char c0); [|by intros ?%elem_of_nil]];
    intros ([s' a] & Ht & Hin)%list_elem_of_bind;
    apply option_string_actions_optional in Hin;
    repeat case_match; rewrite ?elem_of_nil, ?list_elem_of_singleton in Ht;
    try done; subst t; simpl; congruence.
Qed.

Lemma _parse_optional_optional s t :
  _parse_optional s = optional t → fst (fst t) ≠ Some filepath_action.
Proof.
  unfold _parse_optional. intros H.
  destruct s as [|c0 tail]; [done|].
  destruct (negb (is_prefix_char c0)); [done|].
  destruct (lookup_option (String c0 tail)) as [a|] eqn:E1.
  { simplify_eq. simpl. intros [= ->]. by eapply lookup_option_optional. }
  destruct tail as [|c1 tail]; [done|].
  destruct (Str.split1 Str.equals (String c0 (String c1 tail))) as [[os ex]|].
  - destruct (lookup_option os) as [a|] eqn:E2.
    { simplify_eq. simpl. intros [= ->]. by eapply lookup_option_optional. }
    destruct (_get_option_tuples _) as [|t1 [|t2 ts]] eqn:E3;
      [repeat case_match; by simplify_eq| |done].
    simplify_eq. eapply _get_option_tuples_optional. rewrite E3.
    by apply list_elem_of_singleton.
  - destruct (_get_option_tuples _) as [|t1 [|t2 ts]] eqn:E3;
      [repeat case_match; by simplify_eq| |done].
    simplify_eq. eapply _get_option_tuples_optional. rewrite E3.
    by apply list_elem_of_singleton.
Qed.

Lemma items_of_weaken s args items : items_of args items → items_of (s :: args) items.
Proof.
  induction items as [|[|v|o [[a os] ex]] items IH]; simpl; [done| | |].
  - intros H. eapply Forall_impl; [exact H|]. intros i Hi. by right.
  - intros (Hv & Hne & H). split_and!; [by right|done|auto].
  - intros [Ha H]. auto.
Qed.

Lemma classify_items args : ∀ items,
  classify args = inr items → items_of args items.
Proof.
  induction args as [|s args IH]; intros items H; simpl in H.
  - by simplify_eq.
  - destruct (String.eqb_spec s "--") as [->|Hne].
    { simplify_eq. simpl. apply Forall_fmap, Forall_forall. intros v Hv. simpl. by right. }
    destruct (_parse_optional s) as [|t|] eqn:Hs; [| |done];
      destruct (classify args) as [|items']; simplify_eq; simpl.
    + split_and!; [by left|done|]. by apply items_of_weaken, IH.
    + destruct t as [[a os] ex]. split.
      * by apply (_parse_optional_optional s (a, os, ex)).
      * by apply items_of_weaken, IH.
Qed.

(** The chain of single-dash options in one argument string: flags, then
    the last option. *)
Lemma explicit_chain_flags e : ∀ a os l a' s' e',
  a ≠ filepath_action →
  explicit_chain a os e = inr (l, (a', s', e')) →
  flag_actions l ∧ a' ≠ filepath_action ∧ (is_Some e' → a' = log_level_action).
Proof.
  unfold flag_actions.
  assert (∀ a, a ≠ filepath_action → (nargs a =? 1)%nat = true → a = log_level_action)
    as Hone by (by intros []).
  assert (∀ a, (nargs a =? 1)%nat = false → nargs a = 0) as Hzero by (by intros []).
  induction e as [|e0 e IH]; intros a os l a' s' e' Ha H; simpl in H.
  - destruct (nargs a =? 1)%nat eqn:En; [|by repeat case_match].
    simplify_eq. split_and!; [constructor|done|]. intros _. by apply Hone.
  - destruct (nargs a =? 1)%nat eqn:En.
    { simplify_eq. split_and!; [constructor|done|]. intros _. by apply Hone. }
    destruct os as [|c0 [|c1 os]]; try done.
    destruct (negb (is_prefix_char c1)); [|done].
    destruct (lookup_option _) as [a1|] eqn:E; [|done].
    apply lookup_option_optional in E.
    destruct e as [|e1 e].
    + simplify_eq. split_and!; [|done|by intros [? [=]]].
      repeat constructor; simpl. by apply Hzero.
    + destruct (explicit_chain a1 _ _) as [|[l1 [[a2 s2] e2]]] eqn:E2; [done|].
      simplify_eq. destruct (IH _ _ _ _ _ _ E E2) as (Hl & Ha' & He).
      split_and!; [|done..]. constructor; [|done]. simpl. split; [|done].
      by apply Hzero.
Qed.

Lemma finish_result args st :
  level_ok st → path_of args st → result_of args (finish st).
Proof.
  unfold finish, level_ok, path_of. intros Hlevel Hpath.
  destruct (st_filepath st) as [v|]; [|done].
  destruct (Hpath v eq_refl) as (path & -> & Hin).
  destruct (extras st); [|done].
  destruct Hlevel as [(name & -> & Hname)| ->]; simpl; eauto.
Qed.

Lemma after_dashdash_result args strings st :
  Forall (λ s, s ∈ args) strings → level_ok st → path_of args st →
  result_of args (after_dashdash strings st).
Proof.
  intros Hstrings Hlevel Hpath. unfold after_dashdash.
  destruct (st_filepath st) as [v|] eqn:E.
  { apply finish_result; [exact Hlevel|exact Hpath]. }
  destruct strings as [|v strings].
  { apply finish_result; [exact Hlevel|exact Hpath]. }
  rewrite (take_action_filepath _ v) by apply get_values_filepath_after.
  apply Forall_cons in Hstrings as [Hv _].
  apply finish_result; [done|]. intros ? [= <-]. eauto.
Qed.

(** Whatever [consume] returns is made of the argument strings. *)
Lemma consume_result args items : ∀ m st,
  items_of args items → level_ok st → path_of args st → optional_mode m →
  result_of args (consume m items st).
Proof.
  induction items as [|i items IH]; intros m st Hitems Hlevel Hpath Hm.
  { destruct m; simpl; [by apply finish_result|done]. }
  destruct i as [|v|s [[[a|] os] [ex|]]]; simpl in Hitems.
  - destruct m; simpl; [|done].
    apply after_dashdash_result; [|done..]. by apply Forall_fmap.
  - destruct Hitems as (Hv & Hne & Hitems). destruct m as [|p a s]; simpl.
    + destruct (st_filepath st) as [path|] eqn:E; [by apply IH|].
      destruct items as [|[] items'].
      1,3,4: rewrite (take_action_filepath _ v) by (by apply get_values_filepath);
        (apply IH; try done); intros ? [= <-]; eauto.
      rewrite (take_action_filepath _ v) by apply get_values_filepath_before.
      apply finish_result; [done|]. intros ? [= <-]. eauto.
    + destruct Hm as [Hp ->]. rewrite take_actions_app.
      destruct (take_actions p st) as [r|st1] eqn:E1.
      { by apply take_actions_stops in E1; destruct r. }
      destruct (take_actions_flags _ _ _ Hp E1) as (Hf1 & Hl1 & _). simpl.
      destruct (take_action log_level_action [v] (Some s) st1) as [r|st2] eqn:E2.
      { by apply take_action_stops in E2; destruct r. }
      destruct (take_action_log_level _ _ _ _ E2) as (Hf2 & _ & Hl2).
      apply IH; try done. unfold path_of. by rewrite Hf2, Hf1.
  - destruct Hitems as [Ha Hitems].
    assert (a ≠ filepath_action) as Ha' by congruence.
    destruct m as [|p0 a0 s0]; simpl; [|done].
    destruct (explicit_chain a os ex) as [|[p [[a' s'] [e'|]]]] eqn:E; [done| |];
      destruct (explicit_chain_flags _ _ _ _ _ _ _ Ha' E) as (Hp & Ha1 & He).
    + rewrite (He (mk_is_Some _ _ eq_refl)), take_actions_app.
      destruct (take_actions p st) as [r|st1] eqn:E1.
      { by apply take_actions_stops in E1; destruct r. }
      destruct (take_actions_flags _ _ _ Hp E1) as (Hf1 & Hl1 & _). simpl.
      destruct (take_action log_level_action [e'] (Some s') st1) as [r|st2] eqn:E2.
      { by apply take_action_stops in E2; destruct r. }
      destruct (take_action_log_level _ _ _ _ E2) as (Hf2 & _ & Hl2).
      apply IH; try done. unfold path_of. by rewrite Hf2, Hf1.
    + destruct (nargs a' =? 0)%nat eqn:En.
      * destruct (take_actions _ st) as [r|st1] eqn:E1.
        { by apply take_actions_stops in E1; destruct r. }
        assert (flag_actions (p ++ [(a', [], s')])) as Hflags.
        { apply Forall_app. split; [done|]. repeat constructor. simpl.
          by apply Nat.eqb_eq. }
        destruct (take_actions_flags _ _ _ Hflags E1) as (Hf1 & Hl1 & _).
        apply IH; try done.
        -- unfold level_ok. by rewrite Hl1.
        -- unfold path_of. by rewrite Hf1.
      * apply IH; try done. split; [done|]. by destruct a'.
  - destruct Hitems as [Ha Hitems].
    assert (a ≠ filepath_action) as Ha' by congruence.
    destruct m as [|p0 a0 s0]; simpl; [|done].
    destruct (nargs a =? 0)%nat eqn:En.
    + destruct (take_action a [] (Some os) st) as [r|st1] eqn:E1.
      { by apply take_action_stops in E1; destruct r. }
      apply Nat.eqb_eq in En.
      destruct (take_action_flag _ _ _ _ En E1) as (Hf1 & Hl1 & _).
      apply IH; try done.
      * unfold level_ok. by rewrite Hl1.
      * unfold path_of. by rewrite Hf1.
    + apply IH; try done. split; [constructor|]. by destruct a.
  - destruct Hitems as [_ Hitems]. destruct m; simpl; [|done]. by apply IH.
  - destruct Hitems as [_ Hitems]. destruct m; simpl; [|done]. by apply IH.
Qed.

(** Whatever the argument vector, the path [parse_args] returns is one of
    the argument strings, and the level is one of the five names or the
    empty list. *)
Lemma parse_args_result args : result_of args (parse_args args).
Proof.
  unfold parse_args. destruct (classify args) as [|items] eqn:E; [done|].
  apply consume_result; [by apply classify_items| |done..].
  left. exists "WARNING". split; [done|]. unfold level_names. set_solver.
Qed.

(** A namespace that [parse_args] returns carries one of the five level
    names. *)
Lemma parse_args_log_level args ns :
  parse_args args = Parsed ns → log_level ns ∈ level_names.
Proof.
  intros H. pose proof (parse_args_result args) as Hr. rewrite H in Hr. apply Hr.
Qed.

(** The path in the namespace is one of the argument strings. *)
Lemma parse_args_filepath args ns :
  parse_args args = Parsed ns → filepath ns ∈ args.
Proof.
  intros H. pose proof (parse_args_result args) as Hr. rewrite H in Hr. apply Hr.
Qed.

Lemma positional_not_dashdash s :
  _parse_optional s = positional → s ≠ "--".
Proof. intros H ->. vm_compute in H. discriminate. Qed.

Lemma classify_positional s rest :
  _parse_optional s = positional →
  classify (s :: rest) =
    match classify rest with
    | inl e => inl e
    | inr items => inr (arg s :: items)
    end.
Proof.
  intros H. simpl. rewrite H.
  by destruct (String.eqb_spec s "--") as [?%(positional_not_dashdash s H)|].
Qed.

(** A string that does not start with a hyphen is a positional. *)
Lemma no_hyphen_positional s :
  Str.startswith s "-" = false → _parse_optional s = positional.
Proof.
  destruct s as [|c s]; [done|]. intros H.
  change (Ascii.eqb "-" c && true = false) in H.
  rewrite andb_true_r, Ascii.eqb_sym in H.
  unfold _parse_optional, is_prefix_char, Str.hyphen. by rewrite H.
Qed.

(** The positional takes the first [A] when no [--] follows it. *)
Lemma consume_filepath v items st :
  st_filepath st = None → v ≠ "--" → head items ≠ Some dashdash →
  consume scanning (arg v :: items) st =
    consume scanning items
      {| st_filepath := Some (single v); st_test := st_test st;
         st_log_level := st_log_level st;
         st_log_to_file := st_log_to_file st; extras := extras st |}.
Proof.
  intros Hnone Hv Hhead. simpl. rewrite Hnone.
  rewrite (take_action_filepath _ v) by (by apply get_values_filepath).
  by destruct items as [|[] ?].
Qed.

(** The parse of a vector made of one positional string. *)
Lemma parse_args_one_positional s :
  _parse_optional s = positional →
  parse_args [s] =
    Parsed {| filepath := s; test := false; log_level := "WARNING";
              log_to_file := false |}.
Proof.
  intros H. unfold parse_args. rewrite (classify_positional s [] H).
  cbn [classify].
  by rewrite consume_filepath by (by try apply positional_not_dashdash).
Qed.

(** After [--] a string is the positional whatever it looks like. *)
Lemma parse_args_after_dashdash s :
  parse_args ["--"; s] =
    Parsed {| filepath := s; test := false; log_level := "WARNING";
              log_to_file := false |}.
Proof. reflexivity. Qed.

(** The parse of [filepath --log-level value]. *)
Lemma parse_args_log_level_value s v :
  _parse_optional s = positional →
  parse_args [s; "--log-level"; v] =
    if bool_decide (v ∈ level_names)
    then Parsed {| filepath := s; test := false; log_level := v;
                   log_to_file := false |}
    else UsageError
           (if String.eqb v "--" then expected_one_argument log_level_action
            else match _parse_optional v with
                 | positional => invalid_choice log_level_action v
                 | optional _ => expected_one_argument log_level_action
                 | ambiguous e => e
                 end).
Proof.
  intros H. unfold parse_args. rewrite (classify_positional _ _ H).
  change (classify ["--log-level"; v])
    with (match classify [v] with
          | inl e => inl e
          | inr items =>
              inr (opt "--log-level" (Some log_level_action, "--log-level", None)
                     :: items)
          end).
  case_bool_decide as Hv.
  - assert (classify [v] = inr [arg v]) as ->.
    { unfold level_names in Hv.
      repeat (apply elem_of_cons in Hv as [->|Hv]; [reflexivity|]).
      by apply elem_of_nil in Hv. }
    rewrite consume_filepath by (by try apply positional_not_dashdash).
    simpl. unfold take_action. rewrite get_values_log_level.
    destruct (String.eqb_spec v "--") as [->|_].
    { exfalso. unfold level_names in Hv.
      repeat (apply elem_of_cons in Hv as [Hv|Hv]; [discriminate|]).
      by apply elem_of_nil in Hv. }
    by rewrite bool_decide_eq_true_2.
  - cbn [classify]. destruct (String.eqb_spec v "--") as [->|Hne].
    { by rewrite consume_filepath by (by try apply positional_not_dashdash). }
    destruct (_parse_optional v) as [|[[[a|] os] [ex|]]|e]; try reflexivity;
      rewrite consume_filepath by (by try apply positional_not_dashdash);
      try reflexivity.
    simpl. unfold take_action. rewrite get_values_log_level.
    destruct (String.eqb_spec v "--"); [done|].
    by rewrite bool_decide_eq_false_2.
Qed.

End parser.

(** ** The process *)

Section process.

Context (resolve : string → string) (args : list string) (now : string).
Context (files : gmap string (list byte)).

Lemma main_start :
  main (start_with resolve args now files) =
    match parse_args (tail args) with
    | Parsed ns =>
        (set_logger ns;; count_lines_in_file (filepath ns) (test ns))
          (start_with resolve args now files)
    | ParsedRaw ns =>
        (set_logger ns;; count_lines_in_file (raw_filepath ns) (raw_test ns))
          (start_with resolve args now files)
    | HelpExit =>
        (inl (SystemExit 0),
         set_stdout [help_message] (start_with resolve args now files))
    | UsageError e =>
        (inl (SystemExit 2),
         set_stderr [usage_message; error_message e]
           (start_with resolve args now files))
    end.
Proof.
  unfold main, parse_arguments, mbind, M_bind, bind, gets. simpl.
  by destruct (parse_args (tail args)).
Qed.

Lemma set_logger_start (ns : Namespace) :
  log_level ns ∈ level_names →
  set_logger ns (start_with resolve args now files)
  = (inr tt, configured resolve ns args now files).
Proof.
  destruct ns as [path t name to_file]. unfold level_names. simpl. intros H.
  repeat (apply elem_of_cons in H as [->|H]);
    [..|by apply elem_of_nil in H];
    destruct to_file; unfold configured, opened; cbn;
    unfold set_logger, upper, Logging.basicConfig, Os.open_append, touch,
      mbind, M_bind, bind, gets, modify, ret; cbn;
    try (destruct (files !! resolve "logfile.log") eqn:E; rewrite ?E); reflexivity.
Qed.

End process.

(** A level that is a list stops [set_logger] before it does anything. *)
Lemma set_logger_list ns l w :
  raw_log_level ns = several l → set_logger ns w = (inl AttributeError, w).
Proof.
  intros H. unfold set_logger, upper, mbind, M_bind, bind. rewrite H.
  by destruct (raw_log_to_file ns).
Qed.

(** So does the run whose namespace holds a list: it ends in
    [AttributeError] with the world as it started. *)
Lemma main_raw resolve args now files ns :
  parse_args (tail args) = ParsedRaw ns →
  main (start_with resolve args now files)
  = (inl AttributeError, start_with resolve args now files).
Proof.
  intros H. rewrite main_start, H.
  pose proof (parse_args_result (tail args)) as Hr. rewrite H in Hr.
  destruct Hr as [_ Hlevel]. unfold mbind, M_bind, bind.
  by rewrite (set_logger_list _ _ _ Hlevel).
Qed.

Lemma log_delivered h lvl msg w :
  handlers w = [h] → Logging.log lvl msg w = (inr tt, delivered h lvl msg w).
Proof.
  intros Hh. unfold Logging.log, delivered, mbind, M_bind, bind, gets, modify.
  cbn. rewrite Hh. cbn. destruct (level w <=? lvl)%Z; [|reflexivity].
  cbn. rewrite Hh. destruct h; reflexivity.
Qed.

(** Projections of [delivered]: a record changes the list of calls and, if
    it passes, the sink of the handler; nothing else. *)
Section delivered.

Context (h : Handler) (lvl : Z) (msg : string) (w : World).

Lemma delivered_handlers : handlers (delivered h lvl msg w) = handlers w.
Proof. unfold delivered. destruct (level w <=? lvl)%Z, h; reflexivity. Qed.

Lemma delivered_level : level (delivered h lvl msg w) = level w.
Proof. unfold delivered. destruct (level w <=? lvl)%Z, h; reflexivity. Qed.

Lemma delivered_clock : clock (delivered h lvl msg w) = clock w.
Proof. unfold delivered. destruct (level w <=? lvl)%Z, h; reflexivity. Qed.

Lemma delivered_realpath : realpath (delivered h lvl msg w) = realpath w.
Proof. unfold delivered. destruct (level w <=? lvl)%Z, h; reflexivity. Qed.

Lemma delivered_stdout : stdout (delivered h lvl msg w) = stdout w.
Proof. unfold delivered. destruct (level w <=? lvl)%Z, h; reflexivity. Qed.

Lemma delivered_logged :
  logged (delivered h lvl msg w) = logged w ++ [mkLogRecord lvl msg].
Proof. unfold delivered. destruct (level w <=? lvl)%Z, h; reflexivity. Qed.

Lemma delivered_stderr :
  stderr (delivered h lvl msg w) =
    stderr w ++
    match h with
    | StreamHandler f =>
        (λ r, line (Logging.format f (clock w) r))
          <$> passing (level w) [mkLogRecord lvl msg]
    | FileHandler _ _ => []
    end.
Proof.
  unfold delivered, passing. rewrite filter_cons, filter_nil. simpl.
  destruct (Z.leb_spec (level w) lvl); destruct h;
    repeat case_decide; try lia; simpl; by rewrite ?app_nil_r.
Qed.

Lemma delivered_fs_stream f : h = StreamHandler f → fs (delivered h lvl msg w) = fs w.
Proof. intros ->. unfold delivered. by destruct (level w <=? lvl)%Z. Qed.

Lemma delivered_fs_trace_stream f :
  h = StreamHandler f → fs_trace (delivered h lvl msg w) = fs_trace w.
Proof. intros ->. unfold delivered. by destruct (level w <=? lvl)%Z. Qed.

Lemma delivered_fs_other name f file :
  h = FileHandler name f → file ≠ realpath w name →
  fs (delivered h lvl msg w) !! file = fs w !! file.
Proof.
  intros -> Hne. unfold delivered. destruct (level w <=? lvl)%Z; [|done].
  simpl. by rewrite lookup_insert_ne.
Qed.

Lemma delivered_fs_file name f old :
  h = FileHandler name f → fs w !! realpath w name = Some old →
  fs (delivered h lvl msg w) !! realpath w name =
    Some (old ++
          mjoin ((λ r, list_byte_of_string (Logging.format f (clock w) r) ++ [x0a])
                   <$> passing (level w) [mkLogRecord lvl msg]))%list.
Proof.
  intros -> Hold. unfold delivered, passing. rewrite filter_cons, filter_nil. simpl.
  destruct (Z.leb_spec (level w) lvl); repeat case_decide; try lia; simpl.
  - by rewrite lookup_insert_eq, Hold, app_nil_r.
  - by rewrite Hold, app_nil_r.
Qed.

Lemma delivered_fs_trace_file name f :
  h = FileHandler name f →
  fs_trace (delivered h lvl msg w) =
    fs_trace w ++ (if (level w <=? lvl)%Z then [ev_write name] else []).
Proof.
  intros ->. unfold delivered. destruct (level w <=? lvl)%Z; simpl; by rewrite ?app_nil_r.
Qed.

End delivered.

(** The four ways through [count_lines_in_file], for a root logger with a
    single handler. *)
#[local] Arguments Text.readlines : simpl never.
#[local] Arguments summary : simpl never.
#[local] Arguments Logging.format : simpl never.

Section line_counter.

Context (h : Handler) (path : string) (w : World).
Hypothesis one_handler : handlers w = [h].

Lemma count_test_mode :
  count_lines_in_file path true w =
    (inr tt, delivered h Logging.INFO "Test mode: skipping actual file processing." w).
Proof. unfold count_lines_in_file, Logging.info. by apply log_delivered. Qed.

Lemma count_not_found :
  fs w !! realpath w path = None →
  count_lines_in_file path false w =
    (inr tt,
     delivered h Logging.ERROR ("File not found: " +:+ path)
       (set_fs_trace (fs_trace w ++ [ev_exists path]) w)).
Proof.
  intros Hnone.
  unfold count_lines_in_file, Os.path_exists, touch, mbind, M_bind, bind, gets, modify.
  cbn. rewrite Hnone, bool_decide_eq_false_2 by (by intros [? ?]). cbn.
  unfold Logging.error. by apply log_delivered.
Qed.

Lemma count_undecodable content :
  fs w !! realpath w path = Some content → Text.readlines content = None →
  count_lines_in_file path false w =
    (inl UnicodeDecodeError,
     set_fs_trace (fs_trace w ++ [ev_exists path; ev_open_read path]) w).
Proof.
  intros Hsome Hdec.
  unfold count_lines_in_file, Os.path_exists, Os.open_readlines, touch,
    mbind, M_bind, bind, gets, modify.
  cbn. rewrite Hsome, bool_decide_eq_true_2 by eauto. cbn. rewrite Hsome. cbn.
  rewrite Hdec. cbn. by rewrite <- app_assoc.
Qed.

Lemma count_found content lines :
  fs w !! realpath w path = Some content → Text.readlines content = Some lines →
  count_lines_in_file path false w =
    (inr tt,
     let w1 := set_fs_trace (fs_trace w ++ [ev_exists path; ev_open_read path]) w in
     let w2 := delivered h Logging.INFO ("Processed file: " +:+ path) w1 in
     let w3 := delivered h Logging.INFO ("Total lines: " +:+ pretty (length lines)) w2 in
     set_stdout (stdout w3 ++ [line (summary path (length lines))]) w3).
Proof.
  intros Hsome Hdec.
  unfold count_lines_in_file, Os.path_exists, Os.open_readlines, touch,
    mbind, M_bind, bind, gets, modify.
  cbn. rewrite Hsome, bool_decide_eq_true_2 by eauto. cbn. rewrite Hsome. cbn.
  rewrite Hdec. cbn. rewrite <- app_assoc. cbn.
  unfold Logging.info.
  rewrite (log_delivered h) by done.
  rewrite (log_delivered h) by (by rewrite delivered_handlers).
  reflexivity.
Qed.

End line_counter.

(** ** Reading lines *)

Section reading.

Lemma universal_newlines_id text :
  Text.CR ∉ text → Text.universal_newlines text = text.
Proof.
  induction text as [|c text IH]; [done|]. intros Hcr.
  apply not_elem_of_cons in Hcr as [Hc Htext]. simpl.
  destruct (N.eqb_spec c Text.CR) as [->|_]; [done|].
  by rewrite IH.
Qed.

Lemma split_lines_line l : ∀ acc rest,
  Text.LF ∉ l →
  Text.split_lines acc (l ++ Text.LF :: rest) =
    (rev acc ++ l ++ [Text.LF]) :: Text.split_lines [] rest.
Proof.
  induction l as [|c l IH]; intros acc rest Hlf; simpl.
  - done.
  - apply not_elem_of_cons in Hlf as [Hc Hl].
    destruct (N.eqb_spec c Text.LF) as [->|_]; [done|].
    rewrite IH by done. simpl. by rewrite <- app_assoc.
Qed.

Lemma split_lines_terminated lines :
  Forall no_line_break lines →
  Text.split_lines [] (newline_terminated lines) = (λ l, l ++ [Text.LF]) <$> lines.
Proof.
  unfold newline_terminated.
  induction 1 as [|l lines [Hlf _] _ IH]; [done|]. simpl.
  rewrite <- app_assoc. simpl. rewrite split_lines_line by done.
  simpl. f_equal. exact IH.
Qed.

Lemma newline_terminated_no_CR lines :
  Forall no_line_break lines → Text.CR ∉ newline_terminated lines.
Proof.
  unfold newline_terminated.
  induction 1 as [|l lines [_ Hcr] _ IH]; simpl.
  - apply not_elem_of_nil.
  - rewrite !elem_of_app, list_elem_of_singleton. intros [[?|?]|?]; done.
Qed.

(** A decodable file made of [n] lines that end in a line feed reads as
    these [n] lines. *)
Lemma readlines_terminated content lines :
  Text.utf_8_decode content = Some (newline_terminated lines) →
  Forall no_line_break lines →
  Text.readlines content = Some ((λ l, l ++ [Text.LF]) <$> lines).
Proof.
  intros Hdec Hlines. unfold Text.readlines. rewrite Hdec. simpl.
  rewrite universal_newlines_id by by apply newline_terminated_no_CR.
  by rewrite split_lines_terminated.
Qed.

End reading.

(** A [main] that returns ends the process with status 0. *)
Lemma run_returns w w' : main w = (inr tt, w') → run w = (0%Z, w').
Proof. unfold run. by intros ->. Qed.

(** ** A run whose arguments parse *)

Section parsed.

Context (resolve : string → string) (args : list string) (now : string).
Context (files : gmap string (list byte)) (ns : Namespace).
Hypothesis parsed : parse_args (tail args) = Parsed ns.

Lemma main_parsed :
  main (start_with resolve args now files) =
    count_lines_in_file (filepath ns) (test ns) (configured resolve ns args now files).
Proof.
  rewrite main_start, parsed. unfold mbind, M_bind, bind.
  by rewrite set_logger_start by by eapply parse_args_log_level.
Qed.

Lemma opened_lookup_Some file content :
  files !! file = Some content → opened resolve ns files !! file = Some content.
Proof.
  intros H. unfold opened.
  destruct (log_to_file ns); [|done].
  destruct (files !! resolve "logfile.log") eqn:E; [done|].
  rewrite lookup_insert_ne; [done|]. intros <-. congruence.
Qed.

Lemma opened_lookup_None file :
  files !! file = None →
  ¬ (log_to_file ns = true ∧ file = resolve "logfile.log") →
  opened resolve ns files !! file = None.
Proof.
  intros H Hlog. unfold opened.
  destruct (log_to_file ns); [|done].
  destruct (files !! resolve "logfile.log") eqn:E; [done|].
  rewrite lookup_insert_ne; [done|]. intros <-. by apply Hlog.
Qed.

(** Under [log_to_file] the log file is there once [set_logger] has run,
    with the content it had. *)
Lemma opened_lookup_log_file :
  log_to_file ns = true →
  opened resolve ns files !! resolve "logfile.log"
  = Some (default [] (files !! resolve "logfile.log")).
Proof.
  intros H. unfold opened. rewrite H.
  destruct (files !! resolve "logfile.log") eqn:E; simpl.
  - by rewrite E.
  - by rewrite lookup_insert_eq.
Qed.

Lemma configured_handlers :
  handlers (configured resolve ns args now files) = [log_handler ns].
Proof. reflexivity. Qed.

(** Test mode. *)
Lemma main_test_mode :
  test ns = true →
  main (start_with resolve args now files) =
    (inr tt, delivered (log_handler ns) Logging.INFO
               "Test mode: skipping actual file processing."
               (configured resolve ns args now files)).
Proof.
  intros Ht. rewrite main_parsed, Ht.
  by rewrite (count_test_mode _ _ _ configured_handlers).
Qed.

(** The file is not there when the line counter looks for it. *)
Lemma main_not_found :
  test ns = false →
  opened resolve ns files !! resolve (filepath ns) = None →
  main (start_with resolve args now files) =
    (inr tt, delivered (log_handler ns) Logging.ERROR
               ("File not found: " +:+ filepath ns)
               (set_fs_trace (fs_trace (configured resolve ns args now files)
                              ++ [ev_exists (filepath ns)])
                  (configured resolve ns args now files))).
Proof.
  intros Ht Hfile. rewrite main_parsed, Ht.
  by rewrite (count_not_found _ _ _ configured_handlers).
Qed.

(** The success path. *)
Lemma run_found content lines :
  test ns = false →
  opened resolve ns files !! resolve (filepath ns) = Some content →
  Text.readlines content = Some lines →
  let w := start_with resolve args now files in
  stdout (final w) = [line (summary (filepath ns) (length lines))]
  ∧ logged (final w) =
      [mkLogRecord Logging.INFO ("Processed file: " +:+ filepath ns);
       mkLogRecord Logging.INFO ("Total lines: " +:+ pretty (length lines))]
  ∧ exit_code w = 0%Z.
Proof.
  intros Ht Hfile Hlines w. unfold final, exit_code, run, w.
  rewrite main_parsed, Ht.
  rewrite (count_found _ _ _ configured_handlers content lines) by done.
  cbn [fst snd stdout logged set_stdout].
  by rewrite !delivered_stdout, !delivered_logged.
Qed.

End parsed.

(** ** Where the records go *)

Section routing.

Lemma passing_app threshold l1 l2 :
  passing threshold (l1 ++ l2) = passing threshold l1 ++ passing threshold l2.
Proof. apply filter_app. Qed.

Lemma routed_delivered h files records lvl msg w :
  routed h files records w →
  routed h files (records ++ passing (level w) [mkLogRecord lvl msg])
    (delivered h lvl msg w).
Proof.
  destruct h as [f|name f]; simpl.
  - intros [Herr Hfs].
    rewrite delivered_stderr, delivered_clock.
    rewrite (delivered_fs_stream _ _ _ _ f) by done.
    by rewrite fmap_app, Herr.
  - intros (Herr & Hother & Hfile).
    rewrite delivered_stderr, delivered_clock, delivered_realpath.
    rewrite app_nil_r. split; [done|]. split.
    + intros file Hne. rewrite (delivered_fs_other _ _ _ _ name f) by done. auto.
    + erewrite delivered_fs_file by done.
      by rewrite fmap_app, join_app, app_assoc.
Qed.

Lemma routed_delivered_eq h files records records' lvl msg w :
  routed h files records w →
  records' = records ++ passing (level w) [mkLogRecord lvl msg] →
  routed h files records' (delivered h lvl msg w).
Proof. intros H ->. by apply routed_delivered. Qed.

(** Only the console, the files and the clock matter. *)
Lemma routed_frame h files records w w' :
  stderr w' = stderr w → fs w' = fs w → clock w' = clock w →
  realpath w' = realpath w →
  routed h files records w → routed h files records w'.
Proof.
  intros Herr Hfs Hclock Hreal. unfold routed.
  by rewrite Herr, Hfs, Hclock, Hreal.
Qed.

Lemma routed_configured resolve ns args now files :
  routed (log_handler ns) files [] (configured resolve ns args now files).
Proof.
  unfold log_handler, configured, opened, routed.
  destruct (log_to_file ns); simpl; [|done].
  split; [done|]. destruct (files !! resolve "logfile.log") eqn:E; simpl.
  - split; [done|]. by rewrite E, app_nil_r.
  - split; [|by rewrite lookup_insert_eq].
    intros file Hne. by rewrite lookup_insert_ne.
Qed.

(** The level [set_logger] sets is the one the name stands for. *)
Lemma configured_level resolve ns args now files :
  log_level ns ∈ level_names →
  Logging.lookup_level (log_level ns)
  = Some (level (configured resolve ns args now files)).
Proof.
  unfold level_names. simpl. intros H.
  repeat (apply elem_of_cons in H as [->|H]; [reflexivity|]).
  by apply elem_of_nil in H.
Qed.

(** When [main] is over, whether it returned or raised, the sink holds
    the lines of the records of the run that passed the threshold, which
    is still the one [set_logger] set. *)
Lemma main_routed resolve args now files ns :
  parse_args (tail args) = Parsed ns →
  let w := snd (main (start_with resolve args now files)) in
  let threshold := level (configured resolve ns args now files) in
  routed (log_handler ns) files (passing threshold (records_of resolve ns files)) w
  ∧ clock w = now
  ∧ level w = threshold
  ∧ realpath w = resolve.
Proof.
  intros Hparse. cbn zeta. rewrite (main_parsed _ _ _ _ _ Hparse).
  pose proof (routed_configured resolve ns args now files) as Hcfg.
  pose proof (configured_handlers resolve args now files ns) as Hh.
  set (cfg := configured resolve ns args now files) in *.
  unfold records_of, observation.
  change (opened resolve ns files) with (fs cfg).
  change (fs cfg !! resolve (filepath ns))
    with (fs cfg !! realpath cfg (filepath ns)).
  destruct (test ns).
  { rewrite (count_test_mode _ _ _ Hh). cbn [snd].
    rewrite delivered_clock, delivered_level, delivered_realpath.
    split; [|done]. by apply (routed_delivered _ _ []). }
  destruct (fs cfg !! realpath cfg (filepath ns)) as [content|] eqn:Hfile.
  - destruct (Text.readlines content) as [lines|] eqn:Hlines.
    + rewrite (count_found _ _ _ Hh content lines) by done. cbn [snd].
      split; [|cbn; by rewrite !delivered_clock, !delivered_level, !delivered_realpath].
      eapply routed_frame; [reflexivity..|].
      eapply routed_delivered_eq;
        [eapply routed_delivered_eq;
           [eapply routed_frame; [reflexivity..|]; exact Hcfg|reflexivity]|].
      rewrite delivered_level. apply (passing_app _ [_] [_]).
    + rewrite (count_undecodable _ _ content) by done. cbn [snd].
      split; [|done]. eapply routed_frame; [reflexivity..|]. exact Hcfg.
  - rewrite (count_not_found _ _ _ Hh) by done. cbn [snd].
    rewrite delivered_clock, delivered_level, delivered_realpath.
    split; [|done]. apply (routed_delivered _ _ []).
    eapply routed_frame; [reflexivity..|]. exact Hcfg.
Qed.

End routing.

(** * The claims *)

(** A namespace with strings stands for the namespace in general where
    one is expected, also inside a result. *)
#[local] Arguments pair {A B} & _ _.
#[local] Arguments inr {A B} & _.

(** C1.  A file that exists, decodes as UTF-8 and consists of [n] lines,
    each ended by a line feed, run in non-test mode: the message printed
    reports [n] lines and the process exits with status 0.  With the file
    [a.txt] holding the lines x, y, z and no flag, the message is
    [ a.txt has 3 lines.]. *)
Theorem C1_line_count args now files ns content lines :
  parse_args (tail args) = Parsed ns →
  test ns = false →
  files !! filepath ns = Some content →
  Text.utf_8_decode content = Some (newline_terminated lines) →
  Forall no_line_break lines →
  let w := start args now files in
  stdout (final w) =
    [line (" " +:+ filepath ns +:+ " has " +:+ pretty (length lines) +:+ " lines.")]
  ∧ exit_code w = 0%Z.
Proof.
  intros Hparse Ht Hfile Hdec Hlines w.
  pose proof (readlines_terminated _ _ Hdec Hlines) as Hread.
  destruct (run_found (λ path, path) args now files ns Hparse content _ Ht
              (opened_lookup_Some _ _ _ _ _ Hfile) Hread) as (Hout & _ & Hexit).
  rewrite length_fmap in Hout. by split.
Qed.

Lemma C1_three_lines :
  let args := ["count_lines.py"; "a.txt"] in
  let files : gmap string (list byte) := {[ "a.txt" := [x78; x0a; x79; x0a; x7a; x0a] ]} in
  let ns := {| filepath := "a.txt"; test := false; log_level := "WARNING";
               log_to_file := false |} in
  let w := start args "2025-01-01 12:00:00" files in
  (parse_args (tail args) = Parsed ns
   ∧ test ns = false
   ∧ files !! "a.txt" = Some [x78; x0a; x79; x0a; x7a; x0a]
   ∧ Text.utf_8_decode [x78; x0a; x79; x0a; x7a; x0a]
     = Some (newline_terminated [[120]; [121]; [122]]%N)
   ∧ Forall no_line_break [[120]; [121]; [122]]%N)
  ∧ stdout (final w) = [line " a.txt has 3 lines."]
  ∧ exit_code w = 0%Z.
Proof.
  cbn zeta.
  assert (Forall no_line_break [[120]; [121]; [122]]%N) as Hlines.
  { repeat (constructor; [split; by intros ?%list_elem_of_singleton|]). constructor. }
  split; [repeat split; try reflexivity; exact Hlines|].
  apply (C1_line_count ["count_lines.py"; "a.txt"] "2025-01-01 12:00:00"
           {[ "a.txt" := [x78; x0a; x79; x0a; x7a; x0a] ]}
           {| filepath := "a.txt"; test := false; log_level := "WARNING";
              log_to_file := false |}
           [x78; x0a; x79; x0a; x7a; x0a] [[120]; [121]; [122]]%N);
    [reflexivity..|exact Hlines].
Defined.

(** C2.  On the success path (the arguments parse, no test mode, the file
    exists and reads as UTF-8 text) standard output receives exactly one
    line, [ <filepath> has <lineCount> lines.]: a space before the path, a
    full stop at the end, and the word [lines] whatever the count. *)
Theorem C2_success_output args now files ns content lines :
  parse_args (tail args) = Parsed ns →
  test ns = false →
  files !! filepath ns = Some content →
  Text.readlines content = Some lines →
  stdout (final (start args now files)) =
    [line (" " +:+ filepath ns +:+ " has " +:+ pretty (length lines) +:+ " lines.")].
Proof.
  intros Hparse Ht Hfile Hread.
  by destruct (run_found (λ path, path) args now files ns Hparse content _ Ht
                 (opened_lookup_Some _ _ _ _ _ Hfile) Hread) as (Hout & _ & _).
Qed.

Lemma C2_one_line :
  let args := ["count_lines.py"; "--log-level"; "INFO"; "notes.txt"] in
  let files : gmap string (list byte) := {[ "notes.txt" := [x68; x69; x0a] ]} in
  let ns := {| filepath := "notes.txt"; test := false; log_level := "INFO";
               log_to_file := false |} in
  (parse_args (tail args) = Parsed ns
   ∧ test ns = false
   ∧ files !! "notes.txt" = Some [x68; x69; x0a]
   ∧ Text.readlines [x68; x69; x0a] = Some [[104; 105; 10]]%N)
  ∧ stdout (final (start args "2025-01-01 12:00:00" files))
    = [line " notes.txt has 1 lines."].
Proof.
  cbn zeta. split; [repeat split; reflexivity|].
  apply (C2_success_output ["count_lines.py"; "--log-level"; "INFO"; "notes.txt"]
           "2025-01-01 12:00:00" {[ "notes.txt" := [x68; x69; x0a] ]}
           {| filepath := "notes.txt"; test := false; log_level := "INFO";
              log_to_file := false |}
           [x68; x69; x0a] [[104; 105; 10]]%N); reflexivity.
Defined.

(** C9.  An existing file of zero bytes, in non-test mode: the program
    prints [ <filepath> has 0 lines.] and exits with status 0. *)
Theorem C9_empty_file args now files ns :
  parse_args (tail args) = Parsed ns →
  test ns = false →
  files !! filepath ns = Some [] →
  let w := start args now files in
  stdout (final w) = [line (" " +:+ filepath ns +:+ " has 0 lines.")]
  ∧ exit_code w = 0%Z.
Proof.
  intros Hparse Ht Hfile w.
  destruct (run_found (λ path, path) args now files ns Hparse [] [] Ht
              (opened_lookup_Some _ _ _ _ _ Hfile) eq_refl) as (Hout & _ & Hexit).
  by split.
Qed.

Lemma C9_empty_file_run :
  let args := ["count_lines.py"; "empty.txt"] in
  let files : gmap string (list byte) := {[ "empty.txt" := [] ]} in
  let ns := {| filepath := "empty.txt"; test := false; log_level := "WARNING";
               log_to_file := false |} in
  let w := start args "2025-01-01 12:00:00" files in
  (parse_args (tail args) = Parsed ns ∧ test ns = false ∧ files !! "empty.txt" = Some [])
  ∧ stdout (final w) = [line " empty.txt has 0 lines."]
  ∧ exit_code w = 0%Z.
Proof.
  cbn zeta. split; [repeat split; reflexivity|].
  apply (C9_empty_file ["count_lines.py"; "empty.txt"] "2025-01-01 12:00:00"
           {[ "empty.txt" := [] ]}
           {| filepath := "empty.txt"; test := false; log_level := "WARNING";
              log_to_file := false |}); reflexivity.
Defined.

(** C8.  An argument vector that holds the positional file path and no
    flag gives the namespace with [test = False], [log_level = "WARNING"]
    and [log_to_file = False], and [parse_arguments] returns it without
    touching the world. *)
Theorem C8_defaults prog path now files :
  _parse_optional path = positional →
  let w := start [prog; path] now files in
  parse_arguments w =
    (inr {| filepath := path; test := false; log_level := "WARNING";
            log_to_file := false |}, w).
Proof.
  intros Hpath w. unfold parse_arguments, mbind, M_bind, bind, gets.
  cbn [w start start_with argv tail]. by rewrite (parse_args_one_positional _ Hpath).
Qed.

Lemma C8_defaults_a_txt :
  _parse_optional "a.txt" = positional
  ∧ parse_arguments (start ["count_lines.py"; "a.txt"] "2025-01-01 12:00:00" ∅) =
      (inr {| filepath := "a.txt"; test := false; log_level := "WARNING";
              log_to_file := false |},
       start ["count_lines.py"; "a.txt"] "2025-01-01 12:00:00" ∅).
Proof.
  split; [reflexivity|].
  apply (C8_defaults "count_lines.py" "a.txt" "2025-01-01 12:00:00" ∅). reflexivity.
Defined.

(** C4.  A level outside the five names is not always turned away.  In
    [--log-level=--] the value is the string [--], and [_get_values] takes
    the first [--] out of the values of every action: nothing is left to
    check against the choices, and [log_level] becomes the empty list.
    [parse_arguments] returns that namespace, [set_logger] fails when it
    asks the list for [upper], and the process ends with status 1 and a
    traceback in place of the usage error.  The same value as a string of
    its own is turned away with status 2, and so is another wrong value
    behind the equals sign. *)
Theorem C4_log_level_dashes :
  let now := "2025-01-01 12:00:00" in
  let w := start ["count_lines.py"; "a.txt"; "--log-level=--"] now ∅ in
  let w1 := start ["count_lines.py"; "a.txt"; "--log-level"; "--"] now ∅ in
  let w2 := start ["count_lines.py"; "a.txt"; "--log-level=BOGUS"] now ∅ in
  ("--" ∉ level_names)
  ∧ parse_arguments w =
      (inr {| raw_filepath := "a.txt"; raw_test := false;
              raw_log_level := several []; raw_log_to_file := false |}, w)
  ∧ run w = (1%Z, set_stderr [traceback AttributeError] w)
  ∧ run w1 =
      (2%Z, set_stderr [usage_message;
                        error_message (expected_one_argument log_level_action)] w1)
  ∧ run w2 =
      (2%Z, set_stderr [usage_message;
                        error_message (invalid_choice log_level_action "BOGUS")] w2).
Proof.
  cbn zeta. split; [|repeat split; reflexivity].
  unfold level_names. rewrite !not_elem_of_cons. repeat split; try done.
  apply not_elem_of_nil.
Qed.

(** C3 as stated fails when the path given is the log file itself:
    [count_lines.py logfile.log --log-to-file] with no such file.
    [basicConfig(filename="logfile.log")] creates the file, so
    [os.path.exists] finds it: no ERROR record, and an (empty) file is
    counted and reported on standard output. *)
Lemma C3_path_is_the_log_file :
  ¬ (∀ args now files ns,
       parse_args (tail args) = Parsed ns →
       test ns = false →
       files !! filepath ns = None →
       let w := start args now files in
       fst (main w) = inr tt
       ∧ logged (final w)
         = [mkLogRecord Logging.ERROR ("File not found: " +:+ filepath ns)]
       ∧ stdout (final w) = []
       ∧ exit_code w = 0%Z).
Proof.
  intros H.
  specialize (H ["count_lines.py"; "logfile.log"; "--log-to-file"]
                "2025-01-01 12:00:00" ∅
                {| filepath := "logfile.log"; test := false; log_level := "WARNING";
                   log_to_file := true |}).
  destruct H as (_ & _ & Hout & _); [reflexivity..|].
  vm_compute in Hout. discriminate.
Qed.

(** What that run does. *)
Example run_path_is_the_log_file :
  let w := start ["count_lines.py"; "logfile.log"; "--log-to-file"]
             "2025-01-01 12:00:00" ∅ in
  stdout (final w) = [line " logfile.log has 0 lines."]
  ∧ logged (final w)
    = [mkLogRecord Logging.INFO "Processed file: logfile.log";
       mkLogRecord Logging.INFO "Total lines: 0"]
  ∧ fs (final w) !! "logfile.log" = Some []
  ∧ exit_code w = 0%Z.
Proof. cbn zeta. repeat split; reflexivity. Qed.

(** The same happens under any other name of the log file: in a directory
    where [./logfile.log] leads to the file [logfile.log], the run of
    [count_lines.py ./logfile.log --log-to-file] finds the file that
    [basicConfig] has just created. *)
Example run_path_leads_to_the_log_file :
  let resolve := λ path, if String.eqb path "./logfile.log" then "logfile.log" else path in
  let w := start_with resolve ["count_lines.py"; "./logfile.log"; "--log-to-file"]
             "2025-01-01 12:00:00" ∅ in
  stdout (final w) = [line " ./logfile.log has 0 lines."]
  ∧ logged (final w)
    = [mkLogRecord Logging.INFO "Processed file: ./logfile.log";
       mkLogRecord Logging.INFO "Total lines: 0"]
  ∧ fs (final w) !! "logfile.log" = Some []
  ∧ exit_code w = 0%Z.
Proof. cbn zeta. repeat split; reflexivity. Qed.

(** C3, amended.  A path that leads to no file and does not lead to the
    log file opened by [--log-to-file], whatever names the two go by, in
    non-test mode: [main] returns, one ERROR record
    [File not found: <filepath>] is issued and no other record, nothing is
    printed on standard output, and the process exits with status 0. *)
Theorem C3_file_not_found resolve args now files ns :
  parse_args (tail args) = Parsed ns →
  test ns = false →
  files !! resolve (filepath ns) = None →
  ¬ (log_to_file ns = true ∧ resolve (filepath ns) = resolve "logfile.log") →
  let w := start_with resolve args now files in
  fst (main w) = inr tt
  ∧ logged (final w)
    = [mkLogRecord Logging.ERROR ("File not found: " +:+ filepath ns)]
  ∧ stdout (final w) = []
  ∧ exit_code w = 0%Z.
Proof.
  intros Hparse Ht Hfile Hlog w.
  pose proof (main_not_found resolve args now files ns Hparse Ht
                (opened_lookup_None _ _ _ _ Hfile Hlog)) as Hmain.
  unfold final, exit_code, w. rewrite (run_returns _ _ Hmain), Hmain.
  cbn [fst snd]. by rewrite delivered_logged, delivered_stdout.
Qed.

Lemma C3_missing_file :
  let resolve := λ path, if String.eqb path "./logfile.log" then "logfile.log" else path in
  let args := ["count_lines.py"; "./missing.txt"; "--log-to-file"] in
  let ns := {| filepath := "./missing.txt"; test := false; log_level := "WARNING";
               log_to_file := true |} in
  let files : gmap string (list byte) := ∅ in
  let w := start_with resolve args "2025-01-01 12:00:00" files in
  (parse_args (tail args) = Parsed ns
   ∧ test ns = false
   ∧ files !! resolve "./missing.txt" = None
   ∧ ¬ (log_to_file ns = true ∧ resolve "./missing.txt" = resolve "logfile.log"))
  ∧ fst (main w) = inr tt
  ∧ logged (final w) = [mkLogRecord Logging.ERROR "File not found: ./missing.txt"]
  ∧ stdout (final w) = []
  ∧ exit_code w = 0%Z.
Proof.
  cbn zeta.
  assert (¬ (true = true ∧ "./missing.txt" = "logfile.log")) as Hlog
    by (intros [_ ?]; discriminate).
  split; [repeat split; try reflexivity; exact Hlog|].
  apply (C3_file_not_found
           (λ path, if String.eqb path "./logfile.log" then "logfile.log" else path)
           ["count_lines.py"; "./missing.txt"; "--log-to-file"]
           "2025-01-01 12:00:00" ∅
           {| filepath := "./missing.txt"; test := false; log_level := "WARNING";
              log_to_file := true |}); [reflexivity..|exact Hlog].
Defined.

(** C5 as stated fails with [--log-to-file]: in test mode too,
    [set_logger] opens [logfile.log] for appending (and creates it), which
    is an access to the file system.  Input:
    [count_lines.py a.txt --test --log-to-file], no file anywhere. *)
Lemma C5_log_file_is_opened :
  ¬ (∀ args now files ns,
       parse_args (tail args) = Parsed ns →
       test ns = true →
       let w := start args now files in
       fs_trace (final w) = []
       ∧ stdout (final w) = []
       ∧ logged (final w)
         = [mkLogRecord Logging.INFO "Test mode: skipping actual file processing."]
       ∧ exit_code w = 0%Z).
Proof.
  intros H.
  specialize (H ["count_lines.py"; "a.txt"; "--test"; "--log-to-file"]
                "2025-01-01 12:00:00" ∅
                {| filepath := "a.txt"; test := true; log_level := "WARNING";
                   log_to_file := true |}).
  destruct H as (Htrace & _); [reflexivity..|].
  vm_compute in Htrace. discriminate.
Qed.

(** What that run does. *)
Example run_test_mode_log_to_file :
  let w := start ["count_lines.py"; "a.txt"; "--test"; "--log-to-file"]
             "2025-01-01 12:00:00" ∅ in
  fs_trace (final w) = [ev_open_append "logfile.log"]
  ∧ fs (final w) !! "logfile.log" = Some []
  ∧ stdout (final w) = []
  ∧ exit_code w = 0%Z.
Proof. cbn zeta. repeat split; reflexivity. Qed.

(** C5, amended.  In test mode, whatever the path: the program never
    asks whether a file exists and never opens one for reading; its only
    access to the file system is to the log file [logfile.log], opened for
    appending and written to under [--log-to-file], and there is none
    without that flag; every other file is left as it was; nothing goes to
    standard output; the one record issued is the INFO record
    [Test mode: skipping actual file processing.]; the exit status is 0. *)
Theorem C5_test_mode args now files ns :
  parse_args (tail args) = Parsed ns →
  test ns = true →
  let w := start args now files in
  (∀ ev, ev ∈ fs_trace (final w) →
     log_to_file ns = true
     ∧ (ev = ev_open_append "logfile.log" ∨ ev = ev_write "logfile.log"))
  ∧ (log_to_file ns = false → fs_trace (final w) = [] ∧ fs (final w) = files)
  ∧ (∀ path, path ≠ "logfile.log" → fs (final w) !! path = files !! path)
  ∧ stdout (final w) = []
  ∧ logged (final w)
    = [mkLogRecord Logging.INFO "Test mode: skipping actual file processing."]
  ∧ exit_code w = 0%Z.
Proof.
  intros Hparse Ht w.
  pose proof (main_test_mode (λ path, path) args now files ns Hparse Ht) as Hmain.
  unfold final, exit_code, w, start. rewrite (run_returns _ _ Hmain). cbn [fst snd].
  rewrite delivered_stdout, delivered_logged.
  unfold log_handler, configured, opened. destruct (log_to_file ns); cbn [fs fs_trace].
  - split_and!; try done.
    + intros ev. erewrite delivered_fs_trace_file by done. cbn [fs_trace level].
      destruct (_ <=? _)%Z; cbn [app];
        rewrite ?elem_of_cons, ?elem_of_nil; intuition.
    + intros path Hne.
      rewrite (delivered_fs_other _ _ _ _ "logfile.log" dated_format) by done.
      cbn [fs]. case_match; [done|]. by rewrite lookup_insert_ne.
  - rewrite (delivered_fs_trace_stream _ _ _ _ dated_format) by done.
    rewrite (delivered_fs_stream _ _ _ _ dated_format) by done.
    cbn [fs fs_trace]. split_and!; try done.
    intros ev []%elem_of_nil.
Qed.

Lemma C5_test_mode_missing_file :
  let args := ["count_lines.py"; "--test"; "nowhere.txt"] in
  let ns := {| filepath := "nowhere.txt"; test := true; log_level := "WARNING";
               log_to_file := false |} in
  let files : gmap string (list byte) := ∅ in
  let w := start args "2025-01-01 12:00:00" files in
  (parse_args (tail args) = Parsed ns ∧ test ns = true)
  ∧ (∀ ev, ev ∈ fs_trace (final w) →
       log_to_file ns = true
       ∧ (ev = ev_open_append "logfile.log" ∨ ev = ev_write "logfile.log"))
  ∧ (log_to_file ns = false → fs_trace (final w) = [] ∧ fs (final w) = files)
  ∧ (∀ path, path ≠ "logfile.log" → fs (final w) !! path = files !! path)
  ∧ stdout (final w) = []
  ∧ logged (final w)
    = [mkLogRecord Logging.INFO "Test mode: skipping actual file processing."]
  ∧ exit_code w = 0%Z.
Proof.
  cbn zeta. split; [split; reflexivity|].
  apply (C5_test_mode ["count_lines.py"; "--test"; "nowhere.txt"]
           "2025-01-01 12:00:00" ∅
           {| filepath := "nowhere.txt"; test := true; log_level := "WARNING";
              log_to_file := false |}); reflexivity.
Defined.

(** The end of the process adds at most a traceback to what [main] left. *)
Lemma final_of_main w :
  let w' := snd (main w) in
  fs (final w) = fs w' ∧ level (final w) = level w'
  ∧ logged (final w) = logged w' ∧ clock (final w) = clock w'
  ∧ ∃ rest, stderr (final w) = stderr w' ++ rest ∧ ∀ text, line text ∉ rest.
Proof.
  unfold final, run. destruct (main w) as [[e|[]] w']; cbn.
  - assert (∀ rest, (∀ text, line text ∉ rest) →
              ∃ rest', stderr w' ++ rest = stderr w' ++ rest'
                       ∧ ∀ text, line text ∉ rest') as Hrest by eauto.
    destruct e; cbn; split_and!; try done;
      try (apply Hrest; by intros text ?%list_elem_of_singleton).
    exists []. rewrite app_nil_r. split; [done|]. intros ?. apply not_elem_of_nil.
  - split_and!; try done.
    exists []. rewrite app_nil_r. split; [done|]. intros ?. apply not_elem_of_nil.
Qed.

(** C6.  The records of a run are those of the line counter: the test
    mode record, the file-not-found record, or the two records of a file
    that was read.  With [--log-to-file], the lines of those that pass the
    threshold are appended to the file [logfile.log] leads to, in the order
    issued, every other file is as it was, and no log line reaches the
    console.  Without it the same lines are the log lines of the console
    (standard error), and the file system is left as it was: [logfile.log]
    is not created. *)
Theorem C6_log_routing resolve args now files ns threshold :
  parse_args (tail args) = Parsed ns →
  Logging.lookup_level (log_level ns) = Some threshold →
  let w := final (start_with resolve args now files) in
  let records := passing threshold (records_of resolve ns files) in
  if log_to_file ns then
    fs w !! resolve "logfile.log"
    = Some (default [] (files !! resolve "logfile.log") ++ file_lines now records)
    ∧ (∀ file, file ≠ resolve "logfile.log" → fs w !! file = files !! file)
    ∧ (∀ text, line text ∉ stderr w)
  else
    (∃ rest, stderr w = console_lines now records ++ rest
             ∧ ∀ text, line text ∉ rest)
    ∧ fs w = files.
Proof.
  intros Hparse Hlevel w records.
  destruct (main_routed resolve args now files ns Hparse)
    as (Hrouted & Hclock & _ & Hreal).
  rewrite (configured_level resolve ns args now files
             (parse_args_log_level _ _ Hparse)) in Hlevel.
  injection Hlevel as <-.
  destruct (final_of_main (start_with resolve args now files))
    as (Hfs & _ & _ & _ & rest & Herr & Hrest).
  unfold w. rewrite Hfs, Herr.
  unfold log_handler in Hrouted. destruct (log_to_file ns); simpl in Hrouted.
  - destruct Hrouted as (Herr' & Hother & Hfile).
    rewrite Hreal, Hclock in *. rewrite Hfile, Herr'.
    split_and!; [done|exact Hother|]. intros text. apply Hrest.
  - destruct Hrouted as (Herr' & Hfs'). rewrite Herr', Hfs', Hclock.
    split; [|done]. by exists rest.
Qed.

Lemma C6_log_to_file_run :
  let args := ["count_lines.py"; "a.txt"; "--log-level"; "INFO"; "--log-to-file"] in
  let ns := {| filepath := "a.txt"; test := false; log_level := "INFO";
               log_to_file := true |} in
  let files : gmap string (list byte) := {[ "a.txt" := [x78; x0a] ]} in
  let w := final (start args "2025-01-01 12:00:00" files) in
  (parse_args (tail args) = Parsed ns
   ∧ Logging.lookup_level (log_level ns) = Some Logging.INFO)
  ∧ fs w !! "logfile.log"
    = Some (list_byte_of_string "2025-01-01 12:00:00 - INFO - Processed file: a.txt"
            ++ [x0a]
            ++ list_byte_of_string "2025-01-01 12:00:00 - INFO - Total lines: 1"
            ++ [x0a])
  ∧ (∀ file, file ≠ "logfile.log" → fs w !! file = files !! file)
  ∧ (∀ text, line text ∉ stderr w).
Proof.
  cbn zeta. split; [split; reflexivity|].
  pose proof (C6_log_routing (λ path, path)
                ["count_lines.py"; "a.txt"; "--log-level"; "INFO"; "--log-to-file"]
                "2025-01-01 12:00:00" {[ "a.txt" := [x78; x0a] ]}
                {| filepath := "a.txt"; test := false; log_level := "INFO";
                   log_to_file := true |} Logging.INFO eq_refl eq_refl) as H.
  cbn zeta in H. cbn [log_to_file] in H.
  destruct H as (Hfile & Hother & Herr).
  split_and!; [|exact Hother|exact Herr].
  etransitivity; [exact Hfile|]. vm_compute. reflexivity.
Defined.

(** The console of the same run without [--log-to-file]. *)
Example run_log_to_console :
  let args := ["count_lines.py"; "a.txt"; "--log-level"; "INFO"] in
  let files : gmap string (list byte) := {[ "a.txt" := [x78; x0a] ]} in
  let w := final (start args "2025-01-01 12:00:00" files) in
  stderr w = [line "2025-01-01 12:00:00 - INFO - Processed file: a.txt";
              line "2025-01-01 12:00:00 - INFO - Total lines: 1"]
  ∧ stdout w = [line " a.txt has 1 lines."]
  ∧ fs w = files.
Proof. cbn zeta. repeat split; reflexivity. Qed.

(** C7.  The threshold of the root logger is the level asked for on the
    command line.  Once [set_logger] has run, a record below the threshold
    leaves the console and the files as they were; a record at or above it
    is written to the sink, the log file under [--log-to-file] and the
    console otherwise.  Under the default level WARNING a record at INFO,
    as the line counter issues them, is below the threshold. *)
Theorem C7_threshold args now files ns lvl msg :
  parse_args (tail args) = Parsed ns →
  let w1 := snd (set_logger ns (start args now files)) in
  let w2 := snd (Logging.log lvl msg w1) in
  let text := Logging.format dated_format now (mkLogRecord lvl msg) in
  Logging.lookup_level (log_level ns) = Some (level w1)
  ∧ level (final (start args now files)) = level w1
  ∧ ((lvl < level w1)%Z → stderr w2 = stderr w1 ∧ fs w2 = fs w1)
  ∧ ((level w1 ≤ lvl)%Z →
     if log_to_file ns then
       fs w2 !! "logfile.log"
       = Some (default [] (fs w1 !! "logfile.log") ++ list_byte_of_string text ++ [x0a])
       ∧ stderr w2 = stderr w1
     else
       stderr w2 = stderr w1 ++ [line text] ∧ fs w2 = fs w1)
  ∧ (log_level ns = "WARNING" → (Logging.INFO < level w1)%Z).
Proof.
  intros Hparse w1 w2 text.
  destruct (main_routed (λ path, path) args now files ns Hparse)
    as (_ & _ & Hlevel & _).
  destruct (final_of_main (start args now files)) as (_ & Hfinal & _).
  assert (w1 = configured (λ path, path) ns args now files) as Hw1.
  { unfold w1, start.
    by rewrite set_logger_start by by eapply parse_args_log_level. }
  assert (w2 = delivered (log_handler ns) lvl msg w1) as Hw2.
  { unfold w2. by rewrite (log_delivered (log_handler ns)) by by rewrite Hw1. }
  pose proof (configured_level (λ path, path) ns args now files
                (parse_args_log_level _ _ Hparse)) as Hname.
  rewrite <- Hw1 in Hlevel, Hname.
  split_and!.
  - done.
  - rewrite Hfinal. exact Hlevel.
  - intros Hbelow. rewrite Hw2. unfold delivered.
    destruct (Z.leb_spec (level w1) lvl); [lia|done].
  - intros Habove. rewrite Hw2. unfold delivered.
    destruct (Z.leb_spec (level w1) lvl); [|lia].
    unfold log_handler, text. rewrite Hw1. destruct (log_to_file ns); cbn.
    + by rewrite lookup_insert_eq.
    + done.
  - intros Hdefault. rewrite Hdefault in Hname.
    injection Hname as <-. done.
Qed.

Lemma C7_default_discards_info :
  let args := ["count_lines.py"; "a.txt"] in
  let ns := {| filepath := "a.txt"; test := false; log_level := "WARNING";
               log_to_file := false |} in
  let now := "2025-01-01 12:00:00" in
  let files : gmap string (list byte) := {[ "a.txt" := [x78; x0a] ]} in
  let w1 := snd (set_logger ns (start args now files)) in
  let w2 := snd (Logging.log Logging.INFO "Processed file: a.txt" w1) in
  parse_args (tail args) = Parsed ns
  ∧ level w1 = Logging.WARNING
  ∧ stderr w2 = stderr w1 ∧ fs w2 = fs w1.
Proof.
  cbn zeta.
  destruct (C7_threshold ["count_lines.py"; "a.txt"] "2025-01-01 12:00:00"
              {[ "a.txt" := [x78; x0a] ]}
              {| filepath := "a.txt"; test := false; log_level := "WARNING";
                 log_to_file := false |}
              Logging.INFO "Processed file: a.txt" eq_refl)
    as (Hlevel & _ & Hbelow & _ & Hdefault).
  split; [reflexivity|]. split; [reflexivity|].
  apply Hbelow. apply Hdefault. reflexivity.
Defined.

(** ** The line counter in any world *)

Section any_world.

Lemma emit_returns h r w :
  ∃ w', Logging.emit h r w = (inr tt, w')
        ∧ stdout w' = stdout w ∧ logged w' = logged w.
Proof. destruct h; eexists; (split; [reflexivity|done]). Qed.

Lemma callHandlers_returns hs r : ∀ w,
  ∃ w', Logging.callHandlers hs r w = (inr tt, w')
        ∧ stdout w' = stdout w ∧ logged w' = logged w.
Proof.
  induction hs as [|h hs IH]; intros w; simpl.
  - by exists w.
  - destruct (emit_returns h r w) as (w1 & He & Hout & Hlog).
    destruct (IH w1) as (w2 & Hc & Hout' & Hlog').
    exists w2. unfold mbind, M_bind, bind. rewrite He, Hc.
    split; [done|]. split; congruence.
Qed.

(** A logging call returns, adds its record to the calls and leaves
    standard output alone, whatever handlers the root logger has. *)
Lemma log_returns lvl msg w :
  ∃ w', Logging.log lvl msg w = (inr tt, w')
        ∧ stdout w' = stdout w
        ∧ logged w' = logged w ++ [mkLogRecord lvl msg].
Proof.
  unfold Logging.log, mbind, M_bind, bind, gets, modify. cbn.
  destruct (handlers w) as [|h hs] eqn:Hh; cbn;
    (destruct (level w <=? lvl)%Z; [|by eexists]).
  - cbn. eexists. split; [reflexivity|done].
  - rewrite ?Hh.
    match goal with
    | |- context [Logging.callHandlers ?hs ?r ?w0] =>
        destruct (callHandlers_returns hs r w0) as (w' & -> & Hout & Hlog)
    end.
    exists w'. split; [done|]. by rewrite Hout, Hlog.
Qed.

(** The outcome, what is printed and what is logged depend on the world
    through the entry of the path only. *)
Lemma count_lines_observation path test_mode w :
  let '(outcome, printed, records) :=
    observation path test_mode (fs w !! realpath w path) in
  ∃ w', count_lines_in_file path test_mode w = (outcome, w')
        ∧ stdout w' = stdout w ++ printed
        ∧ logged w' = logged w ++ records.
Proof.
  unfold observation, count_lines_in_file. destruct test_mode.
  { destruct (log_returns Logging.INFO
                "Test mode: skipping actual file processing." w)
      as (w' & Hlog & Hout & Hrec).
    exists w'. unfold Logging.info. by rewrite Hlog, Hout, app_nil_r. }
  unfold Os.path_exists, Os.open_readlines, touch, mbind, M_bind, bind, gets, modify.
  cbn. destruct (fs w !! realpath w path) as [content|] eqn:Hfile; cbn.
  - rewrite ?Hfile. cbn.
    destruct (Text.readlines content) as [lines|]; cbn.
    + unfold Logging.info.
      match goal with
      | |- context [Logging.log ?l ?m ?w0] =>
          destruct (log_returns l m w0) as (w1 & -> & Hout1 & Hrec1)
      end.
      match goal with
      | |- context [Logging.log ?l ?m ?w0] =>
          destruct (log_returns l m w0) as (w2 & -> & Hout2 & Hrec2)
      end.
      eexists. split; [reflexivity|]. cbn.
      rewrite Hout2, Hout1, Hrec2, Hrec1. cbn. by rewrite <- app_assoc.
    + eexists. split; [reflexivity|]. cbn. by rewrite !app_nil_r.
  - unfold Logging.error.
    match goal with
    | |- context [Logging.log ?l ?m ?w0] =>
        destruct (log_returns l m w0) as (w1 & -> & Hout1 & Hrec1)
    end.
    exists w1. by rewrite Hout1, Hrec1, app_nil_r.
Qed.

End any_world.

(** C10.  Two runs of the line counter with the same path, the same test
    mode and the same content (or absence) of the file the path leads to,
    in worlds that may differ in everything else (logging handlers and
    level, other files, the directory, clock, what was printed before):
    they end the same way, print the same text on standard output, and
    issue the same records, among them the one that carries the line
    count. *)
Theorem C10_deterministic path test_mode w1 w2 :
  fs w1 !! realpath w1 path = fs w2 !! realpath w2 path →
  let r1 := count_lines_in_file path test_mode w1 in
  let r2 := count_lines_in_file path test_mode w2 in
  fst r1 = fst r2
  ∧ ∃ printed records,
      stdout (snd r1) = stdout w1 ++ printed
      ∧ stdout (snd r2) = stdout w2 ++ printed
      ∧ logged (snd r1) = logged w1 ++ records
      ∧ logged (snd r2) = logged w2 ++ records.
Proof.
  intros Hsame r1 r2.
  pose proof (count_lines_observation path test_mode w1) as H1.
  pose proof (count_lines_observation path test_mode w2) as H2.
  rewrite <- Hsame in H2.
  destruct (observation path test_mode (fs w1 !! realpath w1 path))
    as [[outcome printed] records].
  destruct H1 as (w1' & E1 & Hout1 & Hrec1).
  destruct H2 as (w2' & E2 & Hout2 & Hrec2).
  unfold r1, r2. rewrite E1, E2. cbn [fst snd].
  split; [done|]. by exists printed, records.
Qed.

Lemma C10_two_worlds :
  let files1 : gmap string (list byte) := {[ "a.txt" := [x78; x0a; x79] ]} in
  let files2 : gmap string (list byte) :=
    {[ "/data/a.txt" := [x78; x0a; x79]; "/data/b.txt" := [x0a] ]} in
  let w1 := set_handlers [StreamHandler dated_format]
              (start ["count_lines.py"; "a.txt"] "2025-01-01 12:00:00" files1) in
  let w2 := set_level Logging.DEBUG
              (set_handlers [FileHandler "logfile.log" dated_format]
                 (start_with (λ path, "/data/" +:+ path)
                    ["count_lines.py"; "a.txt"; "--log-to-file"]
                    "2025-06-30 08:30:00" files2)) in
  let r1 := count_lines_in_file "a.txt" false w1 in
  let r2 := count_lines_in_file "a.txt" false w2 in
  fs w1 !! realpath w1 "a.txt" = fs w2 !! realpath w2 "a.txt"
  ∧ fst r1 = fst r2
  ∧ ∃ printed records,
      stdout (snd r1) = stdout w1 ++ printed
      ∧ stdout (snd r2) = stdout w2 ++ printed
      ∧ logged (snd r1) = logged w1 ++ records
      ∧ logged (snd r2) = logged w2 ++ records.
Proof.
  cbn zeta. split; [reflexivity|].
  apply (C10_deterministic "a.txt" false). reflexivity.
Defined.

(** * Further properties *)

(** ** The argument parser, continued *)

(** When [parse_arguments] returns, the world is as it was (nothing is
    printed, no handler installed, no file looked at), the path in the
    namespace is a string, one of the command-line arguments after the
    program name, and the level is one of the five names or else the
    empty list, whatever the argument vector. *)
Theorem parse_arguments_returns w ns w' :
  parse_arguments w = (inr ns, w') →
  w' = w
  ∧ (∃ path, raw_filepath ns = single path ∧ path ∈ tail (argv w))
  ∧ ((∃ name, raw_log_level ns = single name ∧ name ∈ level_names)
     ∨ raw_log_level ns = several []).
Proof.
  unfold parse_arguments, mbind, M_bind, bind, gets, ret, raise. cbn.
  pose proof (parse_args_result (tail (argv w))) as Hr.
  destruct (parse_args (tail (argv w))) as [ns'|ns'| |e] eqn:E; cbn; intros H;
    simplify_eq; (split; [done|]).
  - destruct Hr as [Hpath Hlevel]. split; [by eexists|]. left. by eexists.
  - destruct Hr as [Hpath Hlevel]. auto.
Qed.

Lemma parse_arguments_returns_flags :
  let w := start ["count_lines.py"; "-t"; "--log-level"; "ERROR"; "data.txt";
                  "--log-to-file"] "2025-01-01 12:00:00" ∅ in
  let ns := {| filepath := "data.txt"; test := true; log_level := "ERROR";
               log_to_file := true |} in
  parse_arguments w = (inr ns, w)
  ∧ w = w
  ∧ (∃ path, raw_filepath ns = single path ∧ path ∈ tail (argv w))
  ∧ ((∃ name, raw_log_level ns = single name ∧ name ∈ level_names)
     ∨ raw_log_level ns = several []).
Proof.
  cbn zeta. split; [reflexivity|].
  apply (parse_arguments_returns
           (start ["count_lines.py"; "-t"; "--log-level"; "ERROR"; "data.txt";
                   "--log-to-file"] "2025-01-01 12:00:00" ∅)).
  reflexivity.
Defined.

(** A help flag in first place wins over whatever follows it, a missing
    file path or a wrong level included, as long as no later argument is an
    ambiguous abbreviation: the help message goes to standard output, the
    exit status is 0, and nothing else happens. *)
Theorem help_comes_first prog flag rest items now files :
  flag = "-h" ∨ flag = "--help" →
  classify rest = inr items →
  run (start (prog :: flag :: rest) now files)
  = (0%Z, set_stdout [help_message] (start (prog :: flag :: rest) now files)).
Proof.
  intros Hflag Hrest. unfold run, start. rewrite main_start. cbn [tail].
  assert (parse_args (flag :: rest) = HelpExit) as ->; [|done].
  unfold parse_args.
  destruct Hflag as [-> | ->]; cbn; by rewrite Hrest.
Qed.

Lemma help_comes_first_bogus :
  let args := ["count_lines.py"; "--help"; "--log-level"; "BOGUS"] in
  ("--help" = "-h" ∨ "--help" = "--help")
  ∧ classify ["--log-level"; "BOGUS"]
    = inr [opt "--log-level" (Some log_level_action, "--log-level", None); arg "BOGUS"]
  ∧ run (start args "2025-01-01 12:00:00" ∅)
    = (0%Z, set_stdout [help_message] (start args "2025-01-01 12:00:00" ∅)).
Proof.
  cbn zeta. split; [by right|]. split; [reflexivity|].
  apply (help_comes_first "count_lines.py" "--help" ["--log-level"; "BOGUS"]
           [opt "--log-level" (Some log_level_action, "--log-level", None);
            arg "BOGUS"]); [by right|reflexivity].
Defined.

(** The level as a string of its own: [filepath --log-level value] is
    accepted exactly when the value is one of DEBUG, INFO, WARNING, ERROR,
    CRITICAL, compared as written.  Any other string ends the process with
    status 2 after a usage error on standard error, and the rest of the
    world is as it was at the start: no handler installed, the level
    untouched, no file looked at. *)
Theorem log_level_separate_form prog path value now files :
  _parse_optional path = positional →
  let w := start [prog; path; "--log-level"; value] now files in
  (value ∈ level_names →
   parse_arguments w =
     (inr {| filepath := path; test := false; log_level := value;
             log_to_file := false |}, w))
  ∧ (value ∉ level_names →
     ∃ e, parse_arguments w
          = (inl (SystemExit 2), set_stderr [usage_message; error_message e] w)
          ∧ run w = (2%Z, set_stderr [usage_message; error_message e] w)).
Proof.
  intros Hpath w.
  pose proof (parse_args_log_level_value path value Hpath) as Hparse.
  split; intros Hvalue.
  - rewrite bool_decide_eq_true_2 in Hparse by done.
    unfold parse_arguments, mbind, M_bind, bind, gets.
    cbn [w start start_with argv tail]. by rewrite Hparse.
  - rewrite bool_decide_eq_false_2 in Hparse by done.
    eexists. split.
    + unfold parse_arguments, mbind, M_bind, bind, gets.
      cbn [w start start_with argv tail]. rewrite Hparse. reflexivity.
    + unfold run, w, start. rewrite main_start. cbn [tail]. rewrite Hparse.
      reflexivity.
Qed.

Lemma log_level_separate_form_bogus :
  let w := start ["count_lines.py"; "a.txt"; "--log-level"; "BOGUS"]
             "2025-01-01 12:00:00" ∅ in
  _parse_optional "a.txt" = positional
  ∧ ("BOGUS" ∉ level_names)
  ∧ ∃ e, parse_arguments w
         = (inl (SystemExit 2), set_stderr [usage_message; error_message e] w)
         ∧ run w = (2%Z, set_stderr [usage_message; error_message e] w).
Proof.
  cbn zeta.
  assert ("BOGUS" ∉ level_names) as Hbogus.
  { unfold level_names. rewrite !not_elem_of_cons. repeat split; try done.
    apply not_elem_of_nil. }
  split; [reflexivity|]. split; [exact Hbogus|].
  apply (log_level_separate_form "count_lines.py" "a.txt" "BOGUS"
           "2025-01-01 12:00:00" ∅ eq_refl). exact Hbogus.
Defined.

(** The level may be attached to the flag with an equals sign.  The value
    is then checked against the five names whatever it looks like, but for
    the value [--]: that one is taken out before the check, and the
    namespace comes back with the empty list as its level. *)
Theorem log_level_equals_form path value :
  _parse_optional path = positional →
  parse_args [path; "--log-level=" +:+ value] =
    if bool_decide (value ∈ level_names)
    then Parsed {| filepath := path; test := false; log_level := value;
                   log_to_file := false |}
    else if String.eqb value "--"
    then ParsedRaw {| raw_filepath := path; raw_test := false;
                      raw_log_level := several []; raw_log_to_file := false |}
    else UsageError (invalid_choice log_level_action value).
Proof.
  intros Hpath. unfold parse_args. rewrite (classify_positional _ _ Hpath).
  assert (classify ["--log-level=" +:+ value]
          = inr [opt ("--log-level=" +:+ value)
                   (Some log_level_action, "--log-level", Some value)]) as ->
    by reflexivity.
  rewrite consume_filepath by (by try apply positional_not_dashdash).
  cbn.
  assert (explicit_chain log_level_action "--log-level" value
          = inr ([], (log_level_action, "--log-level", Some value))) as ->
    by (by destruct value).
  cbn. unfold take_action. rewrite get_values_log_level.
  destruct (String.eqb_spec value "--") as [->|Hne]; [reflexivity|].
  by destruct (bool_decide (value ∈ level_names)).
Qed.

Lemma log_level_equals_form_debug :
  _parse_optional "a.txt" = positional
  ∧ parse_args ["a.txt"; "--log-level=DEBUG"]
    = Parsed {| filepath := "a.txt"; test := false; log_level := "DEBUG";
                log_to_file := false |}.
Proof.
  split; [reflexivity|].
  apply (log_level_equals_form "a.txt" "DEBUG"). reflexivity.
Defined.

(** The program takes one file: a second positional argument is a usage
    error that names it. *)
Theorem second_positional_rejected path extra :
  _parse_optional path = positional →
  _parse_optional extra = positional →
  parse_args [path; extra] = UsageError (unrecognized_arguments [extra]).
Proof.
  intros Hpath Hextra. unfold parse_args.
  rewrite (classify_positional _ _ Hpath), (classify_positional _ _ Hextra).
  cbn [classify].
  by rewrite consume_filepath by (by try apply positional_not_dashdash).
Qed.

Lemma second_positional_rejected_b_txt :
  _parse_optional "a.txt" = positional
  ∧ _parse_optional "b.txt" = positional
  ∧ parse_args ["a.txt"; "b.txt"] = UsageError (unrecognized_arguments ["b.txt"]).
Proof.
  split; [reflexivity|]. split; [reflexivity|].
  apply (second_positional_rejected "a.txt" "b.txt"); reflexivity.
Defined.

(** ** Reading lines, continued *)

Section reading_more.

Lemma universal_newlines_line l : ∀ rest,
  Text.CR ∉ l →
  Text.universal_newlines (l ++ rest) = l ++ Text.universal_newlines rest.
Proof.
  induction l as [|c l IH]; intros rest Hcr; [done|].
  apply not_elem_of_cons in Hcr as [Hc Hl]. simpl.
  destruct (N.eqb_spec c Text.CR) as [->|_]; [done|]. by rewrite IH.
Qed.

Lemma split_lines_terminated_app lines rest :
  Forall no_line_break lines →
  Text.split_lines [] (newline_terminated lines ++ rest)
  = ((λ l, l ++ [Text.LF]) <$> lines) ++ Text.split_lines [] rest.
Proof.
  unfold newline_terminated.
  induction 1 as [|l lines [Hlf _] _ IH]; [done|]. simpl.
  rewrite <- !app_assoc. simpl. rewrite split_lines_line by done.
  simpl. f_equal. exact IH.
Qed.

Lemma split_lines_last last : ∀ acc,
  Text.LF ∉ last →
  Text.split_lines acc last
  = match rev acc ++ last with [] => [] | _ :: _ => [rev acc ++ last] end.
Proof.
  induction last as [|c last IH]; intros acc Hlf; simpl.
  - rewrite app_nil_r. destruct acc as [|a acc]; [done|]. simpl.
    by destruct (rev acc ++ [a]) eqn:E; [apply app_eq_nil in E as [_ ?]|].
  - apply not_elem_of_cons in Hlf as [Hc Hl].
    destruct (N.eqb_spec c Text.LF) as [->|_]; [done|].
    rewrite IH by done. simpl. by rewrite <- app_assoc.
Qed.

(** The first code point of a text of lines ended by a lone CR is no LF. *)
Lemma terminated_by_CR_head lines first rest :
  Forall no_line_break lines →
  terminated_by [Text.CR] lines = first :: rest → first ≠ Text.LF.
Proof.
  unfold terminated_by. intros Hlines. destruct Hlines as [|l lines [Hlf _] _]; [done|].
  simpl. destruct l as [|c l]; simpl; intros [= <- _]; [done|].
  by apply not_elem_of_cons in Hlf as [? _].
Qed.

Lemma universal_newlines_CRLF rest :
  Text.universal_newlines (Text.CR :: Text.LF :: rest)
  = Text.LF :: Text.universal_newlines rest.
Proof. reflexivity. Qed.

Lemma universal_newlines_CR first rest :
  first ≠ Text.LF →
  Text.universal_newlines (Text.CR :: first :: rest)
  = Text.LF :: Text.universal_newlines (first :: rest).
Proof.
  intros Hfirst. change (Text.universal_newlines (Text.CR :: first :: rest))
    with (Text.LF :: if (first =? Text.LF)%N then Text.universal_newlines rest
                     else Text.universal_newlines (first :: rest)).
  by destruct (N.eqb_spec first Text.LF).
Qed.

Lemma universal_newlines_terminated_by eol lines :
  eol = [Text.CR; Text.LF] ∨ eol = [Text.CR] →
  Forall no_line_break lines →
  Text.universal_newlines (terminated_by eol lines) = newline_terminated lines.
Proof.
  intros Heol Hlines.
  induction Hlines as [|l lines [Hlf Hcr] Hlines IH]; [done|].
  change (terminated_by eol (l :: lines)) with ((l ++ eol) ++ terminated_by eol lines).
  change (newline_terminated (l :: lines))
    with ((l ++ [Text.LF]) ++ newline_terminated lines).
  rewrite <- !app_assoc, universal_newlines_line by done. f_equal.
  destruct Heol as [-> | ->].
  - change ([Text.CR; Text.LF] ++ ?t) with (Text.CR :: Text.LF :: t).
    by rewrite universal_newlines_CRLF, IH.
  - change ([Text.CR] ++ ?t) with (Text.CR :: t).
    destruct (terminated_by [Text.CR] lines) as [|first rest] eqn:E.
    + by rewrite <- IH.
    + rewrite universal_newlines_CR by by eapply terminated_by_CR_head.
      by rewrite IH.
Qed.

Lemma utf_8_decode_ascii content :
  Forall is_ascii content → Text.utf_8_decode content = Some (Byte.to_N <$> content).
Proof.
  induction 1 as [|b content Hb _ IH]; [done|].
  cbn [Text.utf_8_decode]. cbv zeta.
  destruct (N.ltb_spec (Byte.to_N b) 0x80) as [_|Hge]; [|unfold is_ascii in Hb; lia].
  by rewrite IH.
Qed.

End reading_more.

(** ** The count of lines *)

(** A last line without line feed counts as a line: a file of [n] lines
    that end in a line feed, followed by a non-empty text without line
    break, is reported with [n + 1] lines. *)
Theorem last_line_without_newline args now files ns content lines last :
  parse_args (tail args) = Parsed ns →
  test ns = false →
  files !! filepath ns = Some content →
  Text.utf_8_decode content = Some (newline_terminated lines ++ last) →
  Forall no_line_break lines →
  no_line_break last →
  last ≠ [] →
  let w := start args now files in
  stdout (final w) =
    [line (" " +:+ filepath ns +:+ " has " +:+ pretty (S (length lines)) +:+ " lines.")]
  ∧ exit_code w = 0%Z.
Proof.
  intros Hparse Ht Hfile Hdec Hlines [Hlf Hcr] Hlast w.
  assert (Text.readlines content = Some (((λ l, l ++ [Text.LF]) <$> lines) ++ [last]))
    as Hread.
  { unfold Text.readlines. rewrite Hdec. simpl. f_equal.
    rewrite universal_newlines_id.
    - rewrite split_lines_terminated_app, split_lines_last by done.
      simpl. by destruct last.
    - rewrite elem_of_app. intros [?|?]; [|done].
      by eapply newline_terminated_no_CR. }
  destruct (run_found (λ path, path) args now files ns Hparse content _ Ht
              (opened_lookup_Some _ _ _ _ _ Hfile) Hread) as (Hout & _ & Hexit).
  rewrite length_app, length_fmap, Nat.add_1_r in Hout. by split.
Qed.

Lemma last_line_without_newline_run :
  let args := ["count_lines.py"; "a.txt"] in
  let files : gmap string (list byte) := {[ "a.txt" := [x78; x0a; x79] ]} in
  let ns := {| filepath := "a.txt"; test := false; log_level := "WARNING";
               log_to_file := false |} in
  let w := start args "2025-01-01 12:00:00" files in
  (parse_args (tail args) = Parsed ns
   ∧ test ns = false
   ∧ files !! "a.txt" = Some [x78; x0a; x79]
   ∧ Text.utf_8_decode [x78; x0a; x79] = Some (newline_terminated [[120]] ++ [121])%N
   ∧ Forall no_line_break [[120]]%N
   ∧ no_line_break [121]%N
   ∧ [121]%N ≠ [])
  ∧ stdout (final w) = [line " a.txt has 2 lines."]
  ∧ exit_code w = 0%Z.
Proof.
  cbn zeta.
  assert (no_line_break [120]%N ∧ no_line_break [121]%N) as [H120 H121].
  { split; split; by intros ?%list_elem_of_singleton. }
  assert (Forall no_line_break [[120]]%N) as Hlines
    by (constructor; [exact H120|constructor]).
  split; [split_and!; try reflexivity; done|].
  apply (last_line_without_newline ["count_lines.py"; "a.txt"] "2025-01-01 12:00:00"
           {[ "a.txt" := [x78; x0a; x79] ]}
           {| filepath := "a.txt"; test := false; log_level := "WARNING";
              log_to_file := false |}
           [x78; x0a; x79] [[120]]%N [121]%N);
    try reflexivity; done.
Defined.

(** Lines ended by CR LF, or by a lone CR, count like lines ended by LF:
    one per line. *)
Theorem other_line_endings args now files ns content eol lines :
  parse_args (tail args) = Parsed ns →
  test ns = false →
  files !! filepath ns = Some content →
  eol = [Text.CR; Text.LF] ∨ eol = [Text.CR] →
  Text.utf_8_decode content = Some (terminated_by eol lines) →
  Forall no_line_break lines →
  let w := start args now files in
  stdout (final w) =
    [line (" " +:+ filepath ns +:+ " has " +:+ pretty (length lines) +:+ " lines.")]
  ∧ exit_code w = 0%Z.
Proof.
  intros Hparse Ht Hfile Heol Hdec Hlines w.
  assert (Text.readlines content = Some ((λ l, l ++ [Text.LF]) <$> lines)) as Hread.
  { unfold Text.readlines. rewrite Hdec. simpl. f_equal.
    by rewrite universal_newlines_terminated_by, split_lines_terminated. }
  destruct (run_found (λ path, path) args now files ns Hparse content _ Ht
              (opened_lookup_Some _ _ _ _ _ Hfile) Hread) as (Hout & _ & Hexit).
  rewrite length_fmap in Hout. by split.
Qed.

Lemma other_line_endings_crlf :
  let args := ["count_lines.py"; "dos.txt"] in
  let files : gmap string (list byte) :=
    {[ "dos.txt" := [x78; x0d; x0a; x79; x0d; x0a] ]} in
  let ns := {| filepath := "dos.txt"; test := false; log_level := "WARNING";
               log_to_file := false |} in
  let w := start args "2025-01-01 12:00:00" files in
  (parse_args (tail args) = Parsed ns
   ∧ test ns = false
   ∧ files !! "dos.txt" = Some [x78; x0d; x0a; x79; x0d; x0a]
   ∧ ([Text.CR; Text.LF] = [Text.CR; Text.LF] ∨ [Text.CR; Text.LF] = [Text.CR])
   ∧ Text.utf_8_decode [x78; x0d; x0a; x79; x0d; x0a]
     = Some (terminated_by [Text.CR; Text.LF] [[120]; [121]]%N)
   ∧ Forall no_line_break [[120]; [121]]%N)
  ∧ stdout (final w) = [line " dos.txt has 2 lines."]
  ∧ exit_code w = 0%Z.
Proof.
  cbn zeta.
  assert (Forall no_line_break [[120]; [121]]%N) as Hlines.
  { repeat (constructor; [split; by intros ?%list_elem_of_singleton|]). constructor. }
  split; [split_and!; try reflexivity; try done; by left|].
  apply (other_line_endings ["count_lines.py"; "dos.txt"] "2025-01-01 12:00:00"
           {[ "dos.txt" := [x78; x0d; x0a; x79; x0d; x0a] ]}
           {| filepath := "dos.txt"; test := false; log_level := "WARNING";
              log_to_file := false |}
           [x78; x0d; x0a; x79; x0d; x0a] [Text.CR; Text.LF] [[120]; [121]]%N);
    try reflexivity; try done. by left.
Defined.

(** A file of ASCII bytes is always read: the run prints its count and
    exits with status 0, never with a decoding error. *)
Theorem ascii_file_is_counted args now files ns content :
  parse_args (tail args) = Parsed ns →
  test ns = false →
  files !! filepath ns = Some content →
  Forall is_ascii content →
  let w := start args now files in
  let lines := Text.split_lines [] (Text.universal_newlines (Byte.to_N <$> content)) in
  stdout (final w) =
    [line (" " +:+ filepath ns +:+ " has " +:+ pretty (length lines) +:+ " lines.")]
  ∧ exit_code w = 0%Z.
Proof.
  intros Hparse Ht Hfile Hascii w lines.
  assert (Text.readlines content = Some lines) as Hread.
  { unfold Text.readlines. by rewrite utf_8_decode_ascii. }
  destruct (run_found (λ path, path) args now files ns Hparse content _ Ht
              (opened_lookup_Some _ _ _ _ _ Hfile) Hread) as (Hout & _ & Hexit).
  by split.
Qed.

Lemma ascii_file_is_counted_run :
  let args := ["count_lines.py"; "a.txt"] in
  let files : gmap string (list byte) := {[ "a.txt" := [x68; x69; x0d; x0a; x0a] ]} in
  let ns := {| filepath := "a.txt"; test := false; log_level := "WARNING";
               log_to_file := false |} in
  let w := start args "2025-01-01 12:00:00" files in
  (parse_args (tail args) = Parsed ns
   ∧ test ns = false
   ∧ files !! "a.txt" = Some [x68; x69; x0d; x0a; x0a]
   ∧ Forall is_ascii [x68; x69; x0d; x0a; x0a])
  ∧ stdout (final w) = [line " a.txt has 2 lines."]
  ∧ exit_code w = 0%Z.
Proof.
  cbn zeta.
  assert (Forall is_ascii [x68; x69; x0d; x0a; x0a]) as Hascii
    by (repeat constructor; unfold is_ascii; simpl; lia).
  split; [repeat split; try reflexivity; exact Hascii|].
  apply (ascii_file_is_counted ["count_lines.py"; "a.txt"] "2025-01-01 12:00:00"
           {[ "a.txt" := [x68; x69; x0d; x0a; x0a] ]}
           {| filepath := "a.txt"; test := false; log_level := "WARNING";
              log_to_file := false |}
           [x68; x69; x0d; x0a; x0a]); try reflexivity. exact Hascii.
Defined.

(** A file that is there but is not UTF-8: [readlines] raises, nothing is
    caught.  [main] ends with [UnicodeDecodeError], the process exits with
    status 1 and a traceback on standard error, nothing is printed on
    standard output and no record is issued. *)
Theorem undecodable_file args now files ns content :
  parse_args (tail args) = Parsed ns →
  test ns = false →
  files !! filepath ns = Some content →
  Text.utf_8_decode content = None →
  let w := start args now files in
  fst (main w) = inl UnicodeDecodeError
  ∧ exit_code w = 1%Z
  ∧ stdout (final w) = []
  ∧ stderr (final w) = [traceback UnicodeDecodeError]
  ∧ logged (final w) = [].
Proof.
  intros Hparse Ht Hfile Hdec w.
  assert (Text.readlines content = None) as Hread
    by (unfold Text.readlines; by rewrite Hdec).
  pose proof (count_undecodable (filepath ns)
                (configured (λ path, path) ns args now files) content
                (opened_lookup_Some (λ path, path) files ns _ _ Hfile) Hread) as Hcount.
  unfold final, exit_code, run, w, start.
  rewrite (main_parsed _ _ _ _ _ Hparse), Ht, Hcount. done.
Qed.

Lemma undecodable_file_run :
  let args := ["count_lines.py"; "latin1.txt"] in
  let files : gmap string (list byte) := {[ "latin1.txt" := [x63; x61; x66; xe9; x0a] ]} in
  let ns := {| filepath := "latin1.txt"; test := false; log_level := "WARNING";
               log_to_file := false |} in
  let w := start args "2025-01-01 12:00:00" files in
  (parse_args (tail args) = Parsed ns
   ∧ test ns = false
   ∧ files !! "latin1.txt" = Some [x63; x61; x66; xe9; x0a]
   ∧ Text.utf_8_decode [x63; x61; x66; xe9; x0a] = None)
  ∧ fst (main w) = inl UnicodeDecodeError
  ∧ exit_code w = 1%Z
  ∧ stdout (final w) = []
  ∧ stderr (final w) = [traceback UnicodeDecodeError]
  ∧ logged (final w) = [].
Proof.
  cbn zeta. split; [repeat split; reflexivity|].
  apply (undecodable_file ["count_lines.py"; "latin1.txt"] "2025-01-01 12:00:00"
           {[ "latin1.txt" := [x63; x61; x66; xe9; x0a] ]}
           {| filepath := "latin1.txt"; test := false; log_level := "WARNING";
              log_to_file := false |}
           [x63; x61; x66; xe9; x0a]); reflexivity.
Defined.

(** ** The logger, continued *)

#[local] Arguments Logging.lookup_level : simpl never.
#[local] Arguments Str.upper : simpl never.

(** [set_logger] reads the level name in upper case, so any spelling of a
    level name will do, and the aliases of the library as well.  On a root
    logger without handler it installs its one handler, sets the level the
    name stands for and leaves the console alone; the files are left alone
    too, but for the file [logfile.log] leads to under [log_to_file], which
    exists afterwards with the content it had. *)
Theorem set_logger_level ns w l :
  handlers w = [] →
  Logging.lookup_level (Str.upper (log_level ns)) = Some l →
  ∃ w', set_logger ns w = (inr tt, w')
        ∧ handlers w' = [log_handler ns]
        ∧ level w' = l
        ∧ stdout w' = stdout w ∧ stderr w' = stderr w
        ∧ (∀ file, file ≠ realpath w "logfile.log" → fs w' !! file = fs w !! file)
        ∧ fs w' !! realpath w "logfile.log"
          = if log_to_file ns
            then Some (default [] (fs w !! realpath w "logfile.log"))
            else fs w !! realpath w "logfile.log".
Proof.
  intros Hh Hl.
  unfold set_logger, upper, raw, log_handler, Logging.basicConfig,
    Logging._checkLevel, Os.open_append, touch, mbind, M_bind, bind, gets,
    modify, ret.
  cbn [raw_log_to_file raw_log_level].
  destruct (log_to_file ns); cbn; rewrite Hh; cbn; rewrite Hl; cbn.
  - destruct (fs w !! realpath w "logfile.log") as [old|] eqn:E; cbn;
      eexists; (split; [reflexivity|]); cbn; split_and!; try done.
    + intros file Hne. by rewrite lookup_insert_ne.
    + by rewrite lookup_insert_eq.
  - eexists. split; [reflexivity|]. by cbn.
Qed.

Lemma set_logger_level_lower_case :
  let ns := {| filepath := "a.txt"; test := false; log_level := "debug";
               log_to_file := true |} in
  let w := start ["count_lines.py"] "2025-01-01 12:00:00" {[ "logfile.log" := [x6f; x0a] ]} in
  (handlers w = [] ∧ Logging.lookup_level (Str.upper (log_level ns)) = Some Logging.DEBUG)
  ∧ ∃ w', set_logger ns w = (inr tt, w')
          ∧ handlers w' = [log_handler ns]
          ∧ level w' = Logging.DEBUG
          ∧ stdout w' = stdout w ∧ stderr w' = stderr w
          ∧ (∀ file, file ≠ realpath w "logfile.log" → fs w' !! file = fs w !! file)
          ∧ fs w' !! realpath w "logfile.log"
            = if log_to_file ns
              then Some (default [] (fs w !! realpath w "logfile.log"))
              else fs w !! realpath w "logfile.log".
Proof.
  cbn zeta. split; [split; reflexivity|].
  apply (set_logger_level
           {| filepath := "a.txt"; test := false; log_level := "debug";
              log_to_file := true |}
           (start ["count_lines.py"] "2025-01-01 12:00:00"
              {[ "logfile.log" := [x6f; x0a] ]})); reflexivity.
Defined.

(** The first configuration wins: once [set_logger] has run in a fresh
    process, a second call, with whatever namespace, changes nothing. *)
Theorem set_logger_twice args now files (ns ns' : Namespace) :
  log_level ns ∈ level_names →
  (set_logger ns;; set_logger ns') (start args now files)
  = set_logger ns (start args now files).
Proof.
  intros Hns. unfold start, mbind, M_bind, bind at 1.
  rewrite set_logger_start by done.
  unfold set_logger, upper, raw, Logging.basicConfig, mbind, M_bind, bind, gets, ret.
  cbn [raw_log_to_file raw_log_level]. by destruct (log_to_file ns').
Qed.

Lemma set_logger_twice_run :
  let ns := {| filepath := "a.txt"; test := false; log_level := "ERROR";
               log_to_file := false |} in
  let ns' := {| filepath := "a.txt"; test := false; log_level := "DEBUG";
                log_to_file := true |} in
  let w := start ["count_lines.py"; "a.txt"] "2025-01-01 12:00:00" ∅ in
  log_level ns ∈ level_names
  ∧ (set_logger ns;; set_logger ns') w = set_logger ns w.
Proof.
  cbn zeta.
  assert ("ERROR" ∈ level_names) as Hin.
  { unfold level_names. rewrite !elem_of_cons. auto. }
  split; [exact Hin|].
  apply (set_logger_twice ["count_lines.py"; "a.txt"] "2025-01-01 12:00:00" ∅
           {| filepath := "a.txt"; test := false; log_level := "ERROR";
              log_to_file := false |}). exact Hin.
Defined.

(** ** The whole run *)

Section whole_run.

Context (resolve : string → string) (args : list string) (now : string).
Context (files : gmap string (list byte)).

(** The four ways a run goes once the arguments are parsed. *)
Lemma main_cases ns :
  parse_args (tail args) = Parsed ns →
  let cfg := configured resolve ns args now files in
  let h := log_handler ns in
  main (start_with resolve args now files) =
    if test ns then
      (inr tt, delivered h Logging.INFO "Test mode: skipping actual file processing." cfg)
    else
      match fs cfg !! resolve (filepath ns) with
      | None =>
          (inr tt, delivered h Logging.ERROR ("File not found: " +:+ filepath ns)
                     (set_fs_trace (fs_trace cfg ++ [ev_exists (filepath ns)]) cfg))
      | Some content =>
          match Text.readlines content with
          | None =>
              (inl UnicodeDecodeError,
               set_fs_trace (fs_trace cfg ++ [ev_exists (filepath ns);
                                              ev_open_read (filepath ns)]) cfg)
          | Some lines =>
              (inr tt,
               let w1 := set_fs_trace (fs_trace cfg ++ [ev_exists (filepath ns);
                                                        ev_open_read (filepath ns)]) cfg in
               let w2 := delivered h Logging.INFO ("Processed file: " +:+ filepath ns) w1 in
               let w3 := delivered h Logging.INFO
                           ("Total lines: " +:+ pretty (length lines)) w2 in
               set_stdout (stdout w3 ++ [line (summary (filepath ns) (length lines))]) w3)
          end
      end.
Proof.
  intros Hparse cfg h. rewrite (main_parsed _ _ _ _ _ Hparse).
  pose proof (configured_handlers resolve args now files ns) as Hh.
  destruct (test ns); [by apply count_test_mode|].
  destruct (fs cfg !! resolve (filepath ns)) as [content|] eqn:Hfile;
    [|by apply count_not_found].
  destruct (Text.readlines content) as [lines|] eqn:Hread.
  - by apply (count_found _ _ _ Hh content).
  - by apply (count_undecodable _ _ content).
Qed.

Lemma final_fs_trace w : fs_trace (final w) = fs_trace (snd (main w)).
Proof. unfold final, run. by destruct (main w) as [[[]|[]] w']. Qed.

Lemma delivered_fs_trace_elem h lvl msg w ev :
  ev ∈ fs_trace (delivered h lvl msg w) →
  ev ∈ fs_trace w ∨ ∃ name f, h = FileHandler name f ∧ ev = ev_write name.
Proof.
  destruct h as [f|name f].
  - rewrite (delivered_fs_trace_stream _ _ _ _ f) by done. by left.
  - rewrite (delivered_fs_trace_file _ _ _ _ name f) by done.
    rewrite elem_of_app. intros [?|Hev]; [by left|]. right. exists name, f.
    destruct (level w <=? lvl)%Z; [|by apply elem_of_nil in Hev].
    by apply list_elem_of_singleton in Hev.
Qed.

(** A run that stops before [set_logger] has done anything leaves the
    files and the trace as they were. *)
Lemma main_stops :
  (∀ ns, parse_args (tail args) ≠ Parsed ns) →
  fs (snd (main (start_with resolve args now files))) = files
  ∧ fs_trace (snd (main (start_with resolve args now files))) = [].
Proof.
  intros Hparse.
  destruct (parse_args (tail args)) as [ns|ns| |e] eqn:E.
  - by destruct (Hparse ns).
  - by rewrite (main_raw _ _ _ _ _ E).
  - by rewrite main_start, E.
  - by rewrite main_start, E.
Qed.

End whole_run.

(** The program never changes a file other than its log file, whatever
    the arguments, and the log file only grows: what [logfile.log] held
    before the run is still there, at the beginning. *)
Theorem files_are_kept args now files :
  let w := final (start args now files) in
  (∀ path, path ≠ "logfile.log" → fs w !! path = files !! path)
  ∧ (∀ old, files !! "logfile.log" = Some old →
       ∃ added, fs w !! "logfile.log" = Some (old ++ added)).
Proof.
  cbn zeta. unfold start.
  destruct (final_of_main (start_with (λ path, path) args now files)) as (-> & _).
  destruct (parse_args (tail args)) as [ns|ns| |e] eqn:Hparse.
  - destruct (main_routed (λ path, path) args now files ns Hparse)
      as (Hrouted & _ & _ & Hreal).
    unfold log_handler in Hrouted. destruct (log_to_file ns); simpl in Hrouted.
    + rewrite Hreal in Hrouted. destruct Hrouted as (_ & Hother & Hfile).
      split; [done|]. intros old Hold. rewrite Hfile, Hold. eauto.
    + destruct Hrouted as (_ & ->). split; [done|].
      intros old ->. exists []. by rewrite app_nil_r.
  - destruct (main_stops (λ path, path) args now files) as [-> _];
      [intros ?; by rewrite Hparse|].
    split; [done|]. intros old ->. exists []. by rewrite app_nil_r.
  - destruct (main_stops (λ path, path) args now files) as [-> _];
      [intros ?; by rewrite Hparse|].
    split; [done|]. intros old ->. exists []. by rewrite app_nil_r.
  - destruct (main_stops (λ path, path) args now files) as [-> _];
      [intros ?; by rewrite Hparse|].
    split; [done|]. intros old ->. exists []. by rewrite app_nil_r.
Qed.

(** ** What is logged *)

Section records.

Lemma observation_levels path test_mode entry r :
  r ∈ snd (observation path test_mode entry) →
  levelno r = Logging.INFO ∨ levelno r = Logging.ERROR.
Proof.
  unfold observation.
  destruct test_mode; [|destruct entry as [c|]; [destruct (Text.readlines c)|]];
    simpl; rewrite ?elem_of_cons, ?elem_of_nil; intros Hin;
    repeat (destruct Hin as [Hin|Hin]); subst; simpl; auto; done.
Qed.

(** The outcome of [main], what it printed and the records it issued, read
    off the entry of the path once the logger is configured. *)
Lemma main_observation resolve args now files ns :
  parse_args (tail args) = Parsed ns →
  let w' := snd (main (start_with resolve args now files)) in
  let o := observation (filepath ns) (test ns)
             (opened resolve ns files !! resolve (filepath ns)) in
  fst (main (start_with resolve args now files)) = fst (fst o)
  ∧ stdout w' = snd (fst o)
  ∧ logged w' = snd o.
Proof.
  intros Hparse. cbn zeta. rewrite (main_parsed _ _ _ _ _ Hparse).
  pose proof (count_lines_observation (filepath ns) (test ns)
                (configured resolve ns args now files)) as H.
  change (fs (configured resolve ns args now files)
          !! realpath (configured resolve ns args now files) (filepath ns))
    with (opened resolve ns files !! resolve (filepath ns)) in H.
  destruct (observation _ _ _) as [[outcome printed] records].
  destruct H as (w' & -> & Hout & Hrec). by cbn.
Qed.

Lemma passing_none threshold records :
  (∀ r, r ∈ records → (levelno r < threshold)%Z) → passing threshold records = [].
Proof.
  unfold passing. induction records as [|r records IH]; intros H; [done|].
  rewrite filter_cons. case_decide as Hr.
  - specialize (H r ltac:(by left)). lia.
  - apply IH. intros r' Hr'. apply H. by right.
Qed.

Lemma passing_all threshold records :
  (∀ r, r ∈ records → (threshold ≤ levelno r)%Z) → passing threshold records = records.
Proof.
  unfold passing. induction records as [|r records IH]; intros H; [done|].
  rewrite filter_cons. case_decide as Hr.
  - f_equal. apply IH. intros r' Hr'. apply H. by right.
  - destruct Hr. apply H. by left.
Qed.

(** The traceback of an exception other than [SystemExit] is all the end
    of the process adds to standard error. *)
Lemma final_stderr w :
  stderr (final w) =
    stderr (snd (main w)) ++
    match fst (main w) with
    | inr _ | inl (SystemExit _) => []
    | inl e => [traceback e]
    end.
Proof.
  unfold final, run. destruct (main w) as [[[]|[]] w']; cbn; by rewrite ?app_nil_r.
Qed.

End records.

(** With [--log-level CRITICAL] the program is silent: it issues records
    at INFO and ERROR only, so no log line reaches the console, and
    under [--log-to-file] the log file is opened (created empty when it is
    not there) but nothing is written to it. *)
Theorem critical_is_silent args now files ns :
  parse_args (tail args) = Parsed ns →
  log_level ns = "CRITICAL" →
  let w := final (start args now files) in
  (∀ r, r ∈ logged w → levelno r = Logging.INFO ∨ levelno r = Logging.ERROR)
  ∧ (∀ text, line text ∉ stderr w)
  ∧ fs w = if log_to_file ns
           then <["logfile.log" := default [] (files !! "logfile.log")]> files
           else files.
Proof.
  intros Hparse Hcritical w. unfold w, start.
  destruct (main_routed (λ path, path) args now files ns Hparse)
    as (Hrouted & _ & _ & Hreal).
  destruct (main_observation (λ path, path) args now files ns Hparse)
    as (_ & _ & Hlogged).
  destruct (final_of_main (start_with (λ path, path) args now files))
    as (Hfs & _ & Hfinal & _ & rest & Herr & Hrest).
  pose proof (configured_level (λ path, path) ns args now files
                (parse_args_log_level _ _ Hparse)) as Hname.
  rewrite Hcritical in Hname.
  assert (level (configured (λ path, path) ns args now files) = Logging.CRITICAL)
    as Hcfg by (apply (inj Some); by rewrite <- Hname).
  rewrite Hcfg in Hrouted.
  assert (passing Logging.CRITICAL (records_of (λ path, path) ns files) = [])
    as Hnone.
  { apply passing_none. intros r Hr.
    destruct (observation_levels _ _ _ _ Hr) as [-> | ->]; done. }
  rewrite Hnone in Hrouted.
  rewrite Hfinal, Hfs, Herr, Hlogged.
  split; [intros r; apply observation_levels|].
  unfold log_handler in Hrouted.
  destruct (log_to_file ns); unfold routed in Hrouted; rewrite ?Hreal in Hrouted;
    simpl in Hrouted.
  - destruct Hrouted as (-> & Hother & Hfile). split; [done|].
    apply map_eq. intros path. destruct (decide (path = "logfile.log")) as [->|Hne].
    + by rewrite lookup_insert_eq, Hfile, app_nil_r.
    + rewrite lookup_insert_ne by done. by apply Hother.
  - destruct Hrouted as (-> & ->). by split.
Qed.

Lemma critical_is_silent_run :
  let args := ["count_lines.py"; "nowhere.txt"; "--log-level"; "CRITICAL";
               "--log-to-file"] in
  let ns := {| filepath := "nowhere.txt"; test := false; log_level := "CRITICAL";
               log_to_file := true |} in
  let files : gmap string (list byte) := ∅ in
  let w := final (start args "2025-01-01 12:00:00" files) in
  (parse_args (tail args) = Parsed ns ∧ log_level ns = "CRITICAL")
  ∧ (∀ r, r ∈ logged w → levelno r = Logging.INFO ∨ levelno r = Logging.ERROR)
  ∧ (∀ text, line text ∉ stderr w)
  ∧ fs w = if log_to_file ns
           then <["logfile.log" := default [] (files !! "logfile.log")]> files
           else files.
Proof.
  cbn zeta. split; [split; reflexivity|].
  apply (critical_is_silent
           ["count_lines.py"; "nowhere.txt"; "--log-level"; "CRITICAL"; "--log-to-file"]
           "2025-01-01 12:00:00" ∅
           {| filepath := "nowhere.txt"; test := false; log_level := "CRITICAL";
              log_to_file := true |}); reflexivity.
Defined.

(** [--log-level DEBUG] shows no more than [--log-level INFO]: the program
    issues no record below INFO, so two runs that differ in this choice
    only print the same, log the same lines to the same place, leave the
    same files and exit with the same status. *)
Theorem debug_shows_what_info_shows args1 args2 now files ns1 ns2 :
  parse_args (tail args1) = Parsed ns1 →
  parse_args (tail args2) = Parsed ns2 →
  filepath ns1 = filepath ns2 →
  test ns1 = test ns2 →
  log_to_file ns1 = log_to_file ns2 →
  log_level ns1 = "DEBUG" →
  log_level ns2 = "INFO" →
  let w1 := start args1 now files in
  let w2 := start args2 now files in
  stdout (final w1) = stdout (final w2)
  ∧ stderr (final w1) = stderr (final w2)
  ∧ fs (final w1) = fs (final w2)
  ∧ exit_code w1 = exit_code w2.
Proof.
  intros Hparse1 Hparse2 Hpath Htest Hfile Hdebug Hinfo w1 w2. subst w1 w2.
  unfold start. set (same := λ path : string, path).
  destruct (main_routed same args1 now files ns1 Hparse1) as (Hr1 & Hc1 & _ & Hp1).
  destruct (main_routed same args2 now files ns2 Hparse2) as (Hr2 & Hc2 & _ & Hp2).
  destruct (main_observation same args1 now files ns1 Hparse1) as (Ho1 & Hs1 & _).
  destruct (main_observation same args2 now files ns2 Hparse2) as (Ho2 & Hs2 & _).
  pose proof (configured_level same ns1 args1 now files
                (parse_args_log_level _ _ Hparse1)) as Hn1.
  pose proof (configured_level same ns2 args2 now files
                (parse_args_log_level _ _ Hparse2)) as Hn2.
  rewrite Hdebug in Hn1. rewrite Hinfo in Hn2.
  assert (level (configured same ns1 args1 now files) = Logging.DEBUG) as Hd
    by (apply (inj Some); by rewrite <- Hn1).
  assert (level (configured same ns2 args2 now files) = Logging.INFO) as Hi
    by (apply (inj Some); by rewrite <- Hn2).
  rewrite Hd in Hr1. rewrite Hi in Hr2.
  assert (opened same ns1 files = opened same ns2 files) as Hopened
    by (unfold opened; by rewrite Hfile).
  assert (records_of same ns1 files = records_of same ns2 files) as Hrecords
    by (unfold records_of; by rewrite Hpath, Htest, Hopened).
  rewrite Hpath, Htest, Hopened in Ho1, Hs1. rewrite Hrecords in Hr1.
  set (o := observation (filepath ns2) (test ns2)
              (opened same ns2 files !! same (filepath ns2))) in *.
  assert (∀ t, (t ≤ Logging.INFO)%Z →
               passing t (records_of same ns2 files) = records_of same ns2 files)
    as Hpass.
  { intros t Ht. apply passing_all. intros r Hr.
    destruct (observation_levels _ _ _ _ Hr) as [-> | ->];
      unfold Logging.ERROR, Logging.INFO in *; lia. }
  rewrite Hpass in Hr1, Hr2 by done.
  set (w1 := start_with same args1 now files) in *.
  set (w2 := start_with same args2 now files) in *.
  assert (fst (main w1) = fst (main w2)) as Hout by congruence.
  assert (stderr (snd (main w1)) = stderr (snd (main w2))
          ∧ fs (snd (main w1)) = fs (snd (main w2))) as [Herr Hfs].
  { unfold log_handler in Hr1, Hr2. rewrite Hfile in Hr1.
    destruct (log_to_file ns2); unfold routed in Hr1, Hr2;
      rewrite ?Hp1, ?Hc1 in Hr1; rewrite ?Hp2, ?Hc2 in Hr2.
    - destruct Hr1 as (E1 & O1 & F1), Hr2 as (E2 & O2 & F2).
      split; [congruence|].
      apply map_eq. intros path.
      destruct (decide (path = same "logfile.log")) as [->|Hne].
      + congruence.
      + rewrite O1, O2 by done. done.
    - destruct Hr1 as (E1 & F1), Hr2 as (E2 & F2). split; congruence. }
  split_and!.
  - unfold final, run. destruct (main w1) as [[[]|[]] ?], (main w2) as [[[]|[]] ?];
      cbn in *; congruence.
  - by rewrite !final_stderr, Herr, Hout.
  - unfold final, run. destruct (main w1) as [[[]|[]] ?], (main w2) as [[[]|[]] ?];
      cbn in *; congruence.
  - unfold exit_code, run. destruct (main w1) as [[[]|[]] ?], (main w2) as [[[]|[]] ?];
      cbn in *; congruence.
Qed.

Lemma debug_shows_what_info_shows_run :
  let args1 := ["count_lines.py"; "a.txt"; "--log-level"; "DEBUG"] in
  let args2 := ["count_lines.py"; "--log-level=INFO"; "a.txt"] in
  let ns1 := {| filepath := "a.txt"; test := false; log_level := "DEBUG";
                log_to_file := false |} in
  let ns2 := {| filepath := "a.txt"; test := false; log_level := "INFO";
                log_to_file := false |} in
  let files : gmap string (list byte) := {[ "a.txt" := [x78; x0a] ]} in
  let w1 := start args1 "2025-01-01 12:00:00" files in
  let w2 := start args2 "2025-01-01 12:00:00" files in
  (parse_args (tail args1) = Parsed ns1
   ∧ parse_args (tail args2) = Parsed ns2
   ∧ filepath ns1 = filepath ns2 ∧ test ns1 = test ns2
   ∧ log_to_file ns1 = log_to_file ns2
   ∧ log_level ns1 = "DEBUG" ∧ log_level ns2 = "INFO")
  ∧ stdout (final w1) = stdout (final w2)
  ∧ stderr (final w1) = stderr (final w2)
  ∧ fs (final w1) = fs (final w2)
  ∧ exit_code w1 = exit_code w2.
Proof.
  cbn zeta. split; [split_and!; reflexivity|].
  apply (debug_shows_what_info_shows
           ["count_lines.py"; "a.txt"; "--log-level"; "DEBUG"]
           ["count_lines.py"; "--log-level=INFO"; "a.txt"]
           "2025-01-01 12:00:00" {[ "a.txt" := [x78; x0a] ]}
           {| filepath := "a.txt"; test := false; log_level := "DEBUG";
              log_to_file := false |}
           {| filepath := "a.txt"; test := false; log_level := "INFO";
              log_to_file := false |}); reflexivity.
Defined.

(** ** What the program touches *)

Section accesses.

Lemma log_handler_file ns name f :
  log_handler ns = FileHandler name f → log_to_file ns = true ∧ name = "logfile.log".
Proof. unfold log_handler. destruct (log_to_file ns); intros [=]; by subst. Qed.

Lemma configured_fs_trace_elem resolve ns args now files ev :
  ev ∈ fs_trace (configured resolve ns args now files) →
  log_to_file ns = true ∧ ev = ev_open_append "logfile.log".
Proof.
  unfold configured. cbn. destruct (log_to_file ns).
  - by intros ->%list_elem_of_singleton.
  - by intros ?%elem_of_nil.
Qed.

End accesses.

(** Every access to the file system in a run is one of these: under
    [--log-to-file], opening [logfile.log] for appending and writing to
    it; outside test mode, asking whether the path given exists and
    opening that path for reading.  A run whose arguments do not parse
    touches nothing. *)
Theorem file_system_accesses args now files ev :
  ev ∈ fs_trace (final (start args now files)) →
  ∃ ns, parse_args (tail args) = Parsed ns
        ∧ ((log_to_file ns = true
            ∧ (ev = ev_open_append "logfile.log" ∨ ev = ev_write "logfile.log"))
           ∨ (test ns = false
              ∧ (ev = ev_exists (filepath ns) ∨ ev = ev_open_read (filepath ns)))).
Proof.
  rewrite final_fs_trace. unfold start.
  destruct (parse_args (tail args)) as [ns|ns| |e] eqn:Hparse.
  2-4: destruct (main_stops (λ path, path) args now files) as [_ ->];
    [intros ?; by rewrite Hparse|by intros ?%elem_of_nil].
  rewrite (main_cases (λ path, path) args now files ns Hparse). cbn zeta. intros Hev.
  exists ns. split; [done|].
  assert (∀ ev', ev' ∈ fs_trace (configured (λ path, path) ns args now files) →
                 log_to_file ns = true
                 ∧ (ev' = ev_open_append "logfile.log" ∨ ev' = ev_write "logfile.log"))
    as Hcfg.
  { intros ev' [? ->]%configured_fs_trace_elem. auto. }
  assert (∀ name f, log_handler ns = FileHandler name f → ev = ev_write name →
                    log_to_file ns = true
                    ∧ (ev = ev_open_append "logfile.log" ∨ ev = ev_write "logfile.log"))
    as Hwrite.
  { intros name f [? ->]%log_handler_file ->. auto. }
  destruct (test ns) eqn:Ht.
  { cbn in Hev. apply delivered_fs_trace_elem in Hev as [Hev|(name & f & Hh & ->)];
      left; eauto. }
  destruct (fs (configured (λ path, path) ns args now files) !! filepath ns)
    as [content|];
    [destruct (Text.readlines content) as [lines|]|]; cbn in Hev.
  - repeat (apply delivered_fs_trace_elem in Hev as [Hev|(name & f & Hh & ->)];
            [|left; eauto]).
    cbn in Hev. rewrite elem_of_app, !elem_of_cons, elem_of_nil in Hev.
    destruct Hev as [Hev|[->|[->|[]]]]; [left; eauto|right; auto..].
  - rewrite elem_of_app, !elem_of_cons, elem_of_nil in Hev.
    destruct Hev as [Hev|[->|[->|[]]]]; [left; eauto|right; auto..].
  - apply delivered_fs_trace_elem in Hev as [Hev|(name & f & Hh & ->)];
      [|left; eauto].
    cbn in Hev. rewrite elem_of_app, !elem_of_cons, elem_of_nil in Hev.
    destruct Hev as [Hev|[->|[]]]; [left; eauto|right; auto].
Qed.

Lemma file_system_accesses_run :
  let args := ["count_lines.py"; "a.txt"; "--log-to-file"] in
  let files : gmap string (list byte) := {[ "a.txt" := [x78; x0a] ]} in
  ev_open_read "a.txt" ∈ fs_trace (final (start args "2025-01-01 12:00:00" files))
  ∧ ∃ ns, parse_args (tail args) = Parsed ns
          ∧ ((log_to_file ns = true
              ∧ (ev_open_read "a.txt" = ev_open_append "logfile.log"
                 ∨ ev_open_read "a.txt" = ev_write "logfile.log"))
             ∨ (test ns = false
                ∧ (ev_open_read "a.txt" = ev_exists (filepath ns)
                   ∨ ev_open_read "a.txt" = ev_open_read (filepath ns)))).
Proof.
  cbn zeta.
  assert (ev_open_read "a.txt"
          ∈ fs_trace (final (start ["count_lines.py"; "a.txt"; "--log-to-file"]
                               "2025-01-01 12:00:00" {[ "a.txt" := [x78; x0a] ]})))
    as Hin.
  { replace (fs_trace _)
      with [ev_open_append "logfile.log"; ev_exists "a.txt"; ev_open_read "a.txt"]
      by reflexivity.
    rewrite !elem_of_cons. auto. }
  split; [exact Hin|].
  apply (file_system_accesses ["count_lines.py"; "a.txt"; "--log-to-file"]
           "2025-01-01 12:00:00" {[ "a.txt" := [x78; x0a] ]}). exact Hin.
Defined.

(** ** Flags in any place *)

Section flags.

Lemma classify_flag s rest :
  is_flag s →
  ∃ a, nargs a = 0 ∧ a ≠ help_action ∧ a ≠ filepath_action
       ∧ (a = test_action ↔ s = "-t" ∨ s = "--test")
       ∧ (a = log_to_file_action ↔ s = "--log-to-file")
       ∧ classify (s :: rest) =
           match classify rest with
           | inl e => inl e
           | inr items => inr (opt s (Some a, s, None) :: items)
           end.
Proof.
  unfold is_flag. rewrite !elem_of_cons, elem_of_nil.
  intros [->|[->|[->|[]]]].
  - exists test_action. split_and!; try done; split; auto; try done.
  - exists test_action. split_and!; try done; split; auto; try done.
  - exists log_to_file_action. split_and!; try done; split; auto; try done.
    intros [?|?]; done.
Qed.

Lemma flags_state_step path seen s a :
  nargs a = 0 → a ≠ help_action → a ≠ filepath_action →
  (a = test_action ↔ s = "-t" ∨ s = "--test") →
  (a = log_to_file_action ↔ s = "--log-to-file") →
  ∀ items,
    consume scanning (opt s (Some a, s, None) :: items) (flags_state path seen)
    = consume scanning items (flags_state path (seen ++ [s])).
Proof.
  intros Hn Hh Hf Ht Hl items.
  assert (take_action a [] (Some s) (flags_state path seen)
          = inr (flags_state path (seen ++ [s]))) as Htake.
  { unfold take_action. rewrite get_values_flag by done.
    unfold flags_state. destruct a; try done; cbn.
    - destruct (proj1 Ht eq_refl) as [Hs|Hs].
      + rewrite (bool_decide_eq_true_2 (_ ∨ _))
          by (left; rewrite elem_of_app, list_elem_of_singleton; auto).
        do 2 f_equal. apply bool_decide_ext.
        rewrite elem_of_app, list_elem_of_singleton. subst s.
        split; [auto|]. by intros [?|?].
      + rewrite (bool_decide_eq_true_2 (_ ∨ _))
          by (right; rewrite elem_of_app, list_elem_of_singleton; auto).
        do 2 f_equal. apply bool_decide_ext.
        rewrite elem_of_app, list_elem_of_singleton. subst s.
        split; [auto|]. by intros [?|?].
    - pose proof (proj1 Hl eq_refl) as Hs.
      rewrite (bool_decide_eq_true_2 ("--log-to-file" ∈ seen ++ [s]))
        by (rewrite elem_of_app, list_elem_of_singleton; auto).
      do 2 f_equal. apply bool_decide_ext.
      rewrite !elem_of_app, !list_elem_of_singleton. subst s.
      split; [intros [?|?]; auto|]. intros [[?|?]|[?|?]]; auto; done. }
  simpl. rewrite Hn. simpl. by rewrite Htake.
Qed.

(** Flags classify as options: no [--] among their items. *)
Lemma classify_flags_head post items :
  Forall is_flag post → classify post = inr items → head items ≠ Some dashdash.
Proof.
  intros Hpost Hitems. destruct Hpost as [|s post Hs Hpost].
  - simpl in Hitems. by simplify_eq.
  - destruct (classify_flag s post Hs) as (a & _ & _ & _ & _ & _ & Hc).
    rewrite Hc in Hitems. destruct (classify post); by simplify_eq.
Qed.

Lemma consume_flags_after path post : ∀ seen items,
  Forall is_flag post →
  classify post = inr items →
  consume scanning items (flags_state (Some path) seen)
  = Parsed (flags_namespace path (seen ++ post)).
Proof.
  induction post as [|s post IH]; intros seen items Hpost Hitems.
  - simpl in Hitems. simplify_eq. by rewrite app_nil_r.
  - apply Forall_cons in Hpost as [Hs Hpost].
    destruct (classify_flag s post Hs) as (a & Hn & Hh & Hf & Ht & Hl & Hc).
    rewrite Hc in Hitems.
    destruct (classify post) as [|items'] eqn:E; [done|]. simplify_eq.
    rewrite flags_state_step by done.
    rewrite (IH (seen ++ [s]) items') by auto.
    by rewrite <- app_assoc.
Qed.

Lemma consume_flags_before path post pre : ∀ seen items,
  Forall is_flag pre → Forall is_flag post →
  _parse_optional path = positional →
  classify (pre ++ path :: post) = inr items →
  consume scanning items (flags_state None seen)
  = Parsed (flags_namespace path (seen ++ pre ++ post)).
Proof.
  induction pre as [|s pre IH]; intros seen items Hpre Hpost Hpath Hitems.
  - change ([] ++ path :: post) with (path :: post) in Hitems.
    rewrite (classify_positional _ _ Hpath) in Hitems.
    destruct (classify post) as [|items'] eqn:E; [done|]. simplify_eq.
    rewrite consume_filepath;
      [|done|by apply positional_not_dashdash|by eapply classify_flags_head].
    by apply (consume_flags_after path post seen items').
  - apply Forall_cons in Hpre as [Hs Hpre].
    destruct (classify_flag s (pre ++ path :: post) Hs)
      as (a & Hn & Hh & Hf & Ht & Hl & Hc).
    change ((s :: pre) ++ path :: post) with (s :: pre ++ path :: post) in Hitems.
    rewrite Hc in Hitems.
    destruct (classify (pre ++ path :: post)) as [|items'] eqn:E; [done|].
    simplify_eq. rewrite flags_state_step by done.
    rewrite (IH (seen ++ [s]) items') by auto.
    by rewrite <- !app_assoc.
Qed.

End flags.

(** The flags [-t], [--test] and [--log-to-file] may stand before or after
    the path, in any order and any number of times: the namespace has
    [test] set when [-t] or [--test] is among them, [log_to_file] set when
    [--log-to-file] is, and the default level. *)
Theorem flags_in_any_place pre path post :
  Forall is_flag pre →
  Forall is_flag post →
  _parse_optional path = positional →
  parse_args (pre ++ path :: post) = Parsed (flags_namespace path (pre ++ post)).
Proof.
  intros Hpre Hpost Hpath. unfold parse_args.
  destruct (classify (pre ++ path :: post)) as [e|items] eqn:E.
  - exfalso. clear -E Hpre Hpost Hpath.
    induction Hpre as [|s pre Hs Hpre IH].
    + change ([] ++ path :: post) with (path :: post) in E.
      rewrite (classify_positional _ _ Hpath) in E.
      induction Hpost as [|s post Hs Hpost IH].
      * done.
      * destruct (classify_flag s post Hs) as (a & _ & _ & _ & _ & _ & Hc).
        rewrite Hc in E. destruct (classify post); [by apply IH|done].
    + destruct (classify_flag s (pre ++ path :: post) Hs)
        as (a & _ & _ & _ & _ & _ & Hc).
      change ((s :: pre) ++ path :: post) with (s :: pre ++ path :: post) in E.
      rewrite Hc in E. destruct (classify (pre ++ path :: post)); [by apply IH|done].
  - by apply (consume_flags_before path post pre [] items); auto.
Qed.

Lemma flags_in_any_place_run :
  (Forall is_flag ["--log-to-file"; "-t"]
   ∧ Forall is_flag ["--test"]
   ∧ _parse_optional "a.txt" = positional)
  ∧ parse_args (["--log-to-file"; "-t"] ++ "a.txt" :: ["--test"])
    = Parsed (flags_namespace "a.txt" (["--log-to-file"; "-t"] ++ ["--test"])).
Proof.
  assert (Forall is_flag ["--log-to-file"; "-t"] ∧ Forall is_flag ["--test"])
    as [Hpre Hpost].
  { split; repeat constructor; unfold is_flag; rewrite !elem_of_cons; auto. }
  split; [split_and!; [exact Hpre|exact Hpost|reflexivity]|].
  apply (flags_in_any_place ["--log-to-file"; "-t"] "a.txt" ["--test"]);
    [exact Hpre|exact Hpost|reflexivity].
Defined.
